(** * BookCenter: the search-and-ranking engine

    A shallow embedding of [src/utils/advancedSearch.ts] (classes
    [FuzzySearch], [Transliteration], [SuggestionEngine], [SearchRanking])
    and of [DatabaseManager.searchBooks] from [src/utils/database.ts],
    followed by the properties of the specification that concern them.

    Conventions of the embedding.
    - A JavaScript string is the list of its UTF-16 code units ([list N]);
      [length] is the JavaScript [.length].
    - The built-ins of the JavaScript runtime that depend on the Unicode
      tables ([toLowerCase], [normalize('NFC')], the classes [\p{L}] and
      [\p{N}]) are the fields of a record [Runtime]; general theorems hold
      for every runtime, concrete evaluations use [Ecma.ecma], a runtime
      written out for ASCII, Bengali letters and Hangul.
    - JavaScript numbers that hold scores are rationals ([Q]), compared
      exactly with the thresholds 0.3, 0.6 and 0.7; lengths and edit
      distances are [nat].
    - A call that exhausts the call stack is [None]; the recursive scorer
      carries the remaining stack depth as fuel. *)

From Stdlib Require Import List NArith ZArith QArith Bool Arith Lia.
From Stdlib Require Import Permutation Sorted String Ascii.
Import ListNotations.

Set Implicit Arguments.
Close Scope Q_scope.
Close Scope Z_scope.
Open Scope nat_scope.

(** ** JavaScript strings *)

Definition jsstring := list N.

(** An ASCII literal as a JavaScript string. *)
Fixpoint js (s : string) : jsstring :=
  match s with
  | EmptyString => []
  | String a s' => N_of_ascii a :: js s'
  end.

Fixpoint jsstring_eqb (a b : jsstring) : bool :=
  match a, b with
  | [], [] => true
  | x :: a', y :: b' => N.eqb x y && jsstring_eqb a' b'
  | _, _ => false
  end.

Definition jsstring_eq_dec : forall a b : jsstring, {a = b} + {a <> b} :=
  list_eq_dec N.eq_dec.

(** [s.startsWith(p)]. *)
Fixpoint startsWith (s p : jsstring) : bool :=
  match p, s with
  | [], _ => true
  | x :: p', y :: s' => N.eqb x y && startsWith s' p'
  | _ :: _, [] => false
  end.

(** [s.includes(p)]: [p] occurs in [s] at some position. *)
Fixpoint includes (s p : jsstring) : bool :=
  startsWith s p ||
  match s with
  | [] => false
  | _ :: s' => includes s' p
  end.

(** [arr.includes(x)] on an array of strings. *)
Definition arrayIncludes (arr : list jsstring) (x : jsstring) : bool :=
  existsb (jsstring_eqb x) arr.

(** [s.split(' ')]: never empty, [''.split(' ')] is [['']]. *)
Fixpoint splitSpace (s : jsstring) : list jsstring :=
  match s with
  | [] => [[]]
  | c :: s' =>
      if N.eqb c 32 then [] :: splitSpace s'
      else match splitSpace s' with
           | w :: ws => (c :: w) :: ws
           | [] => [[c]]
           end
  end.

(** [s.replace(new RegExp(pat, 'g'), by)] for a pattern without regular
    expression operators (the dictionary keys have none): the occurrences of
    [pat] are replaced from left to right, without overlap.  [skip] counts
    the code units of the current occurrence still to be consumed.  The
    empty pattern matches before every code unit and at the end. *)
Fixpoint replaceFrom (pat by_ : jsstring) (skip : nat) (s : jsstring)
  : jsstring :=
  match s with
  | [] => match pat with [] => by_ | _ :: _ => [] end
  | c :: s' =>
      match skip with
      | S k => replaceFrom pat by_ k s'
      | O =>
          match pat with
          | [] => by_ ++ c :: replaceFrom pat by_ 0 s'
          | _ :: _ =>
              if startsWith s pat
              then by_ ++ replaceFrom pat by_ (List.length pat - 1) s'
              else c :: replaceFrom pat by_ 0 s'
          end
      end
  end.

Definition replaceAll (pat by_ s : jsstring) : jsstring :=
  replaceFrom pat by_ 0 s.

(** [arr.slice(0, limit)]: a negative [limit] counts from the end. *)
Definition slice0 {A : Type} (limit : Z) (arr : list A) : list A :=
  if (limit <? 0)%Z
  then firstn (Z.to_nat (Z.max (Z.of_nat (List.length arr) + limit) 0)) arr
  else firstn (Z.to_nat limit) arr.

(** [x < y] on numbers. *)
Definition Qltb (x y : Q) : bool := negb (Qle_bool y x).

(** [arr.sort(cmp)]: the sort is stable; [cmp a b < 0] puts [a] first.
    Insertion from the right keeps equal elements in their input order. *)
Section Sort.
Variable A : Type.
Variable cmp : A -> A -> Q.

Fixpoint sortInsert (x : A) (l : list A) : list A :=
  match l with
  | [] => [x]
  | y :: l' => if Qltb (cmp y x) 0%Q then y :: sortInsert x l' else x :: l
  end.

Definition sortBy (l : list A) : list A := fold_right sortInsert [] l.
End Sort.

(** [Math.max(...xs)]: [None] stands for [-Infinity], the value on no
    argument. *)
Definition mathMax (xs : list Q) : option Q :=
  fold_left (fun acc x =>
               match acc with
               | None => Some x
               | Some m => Some (if Qle_bool m x then x else m)
               end) xs None.

(** ** The JavaScript runtime *)

Record Runtime : Type := {
  (** [String.prototype.toLowerCase] *)
  toLowerCase : jsstring -> jsstring;
  (** whether [String.prototype.normalize] exists *)
  hasNormalize : bool;
  (** [s.normalize('NFC')] *)
  normalizeNFC : jsstring -> jsstring;
  (** whether regular expressions know Unicode property escapes; when they
      do not, [normalize] falls to its [catch] branch *)
  unicodeProps : bool;
  (** [\p{L}] or [\p{N}], on a code point *)
  isLetterOrNumber : N -> bool
}.

(** The class [\s] of ECMAScript (WhiteSpace and LineTerminator), which is
    also what [trim] removes. *)
Definition isSpace (c : N) : bool :=
  ((9 <=? c) && (c <=? 13) || (c =? 32) || (c =? 160) || (c =? 5760)
   || (8192 <=? c) && (c <=? 8202) || (c =? 8232) || (c =? 8233)
   || (c =? 8239) || (c =? 8287) || (c =? 12288) || (c =? 65279))%N.

Definition isHighSurrogate (c : N) : bool := ((55296 <=? c) && (c <=? 56319))%N.
Definition isLowSurrogate (c : N) : bool := ((56320 <=? c) && (c <=? 57343))%N.
Definition isSurrogate (c : N) : bool := isHighSurrogate c || isLowSurrogate c.
Definition codePoint (hi lo : N) : N :=
  (65536 + (hi - 55296) * 1024 + (lo - 56320))%N.

(** [s.replace(/\s+/g, ' ')]; [inRun] tells that the previous code unit was
    white space, already replaced. *)
Fixpoint collapseFrom (inRun : bool) (s : jsstring) : jsstring :=
  match s with
  | [] => []
  | c :: s' =>
      if isSpace c
      then (if inRun then collapseFrom true s' else 32%N :: collapseFrom true s')
      else c :: collapseFrom false s'
  end.
Definition collapseSpaces (s : jsstring) : jsstring := collapseFrom false s.

(** [s.trim()] *)
Fixpoint trimStart (s : jsstring) : jsstring :=
  match s with
  | [] => []
  | c :: s' => if isSpace c then trimStart s' else s
  end.
Fixpoint trimEnd (s : jsstring) : jsstring :=
  match s with
  | [] => []
  | c :: s' =>
      match trimEnd s' with
      | [] => if isSpace c then [] else [c]
      | r => c :: r
      end
  end.
Definition trim (s : jsstring) : jsstring := trimEnd (trimStart s).

(** ** class FuzzySearch *)

Module FuzzySearch.

Definition indicator (a b : N) : nat := if N.eqb a b then 0 else 1.

Definition min3 (a b c : nat) : nat := Nat.min (Nat.min a b) c.

(** The inner loop [for i] of one row [j] of the matrix: [above] is row
    [j-1] from column [i-1] on and [left] is [matrix[j][i-1]]; the result
    is row [j] from column [i] on. *)
Fixpoint fillRow (str1 : jsstring) (c2 : N) (above : list nat) (left : nat)
  : list nat :=
  match str1, above with
  | c1 :: str1', diag :: ((up :: _) as above') =>
      let cell := min3 (left + 1) (up + 1) (diag + indicator c1 c2) in
      cell :: fillRow str1' c2 above' cell
  | _, _ => []
  end.

(** The outer loop [for j]: [above] is row [j], the rest of [str2] is
    still to be read; column 0 of row [j+1] is [j+1]. *)
Fixpoint fillRows (str1 str2 : jsstring) (j : nat) (above : list nat)
  : list nat :=
  match str2 with
  | [] => above
  | c2 :: str2' =>
      fillRows str1 str2' (S j) (S j :: fillRow str1 c2 above (S j))
  end.

(** Row 0 is [0 .. str1.length]; the result is
    [matrix[str2.length][str1.length]], the last cell of the last row. *)
Definition levenshteinDistance (str1 str2 : jsstring) : nat :=
  last (fillRows str1 str2 0 (seq 0 (S (List.length str1)))) 0.

Definition similarity (str1 str2 : jsstring) : Q :=
  let longer :=
    if List.length str2 <? List.length str1 then str1 else str2 in
  let shorter :=
    if List.length str2 <? List.length str1 then str2 else str1 in
  if List.length longer =? 0 then 1%Q
  else
    let distance := levenshteinDistance longer shorter in
    (inject_Z (Z.of_nat (List.length longer) - Z.of_nat distance)
     / inject_Z (Z.of_nat (List.length longer)))%Q.

Section WithRuntime.
Variable rt : Runtime.

(** [/[^\p{L}\p{N}\s]/gu]: with the flag [u] the text is read by code
    point, a surrogate pair is one character. *)
Definition keepUnicode (cp : N) : bool := isLetterOrNumber rt cp || isSpace cp.

Fixpoint stripUnicode (s : jsstring) : jsstring :=
  match s with
  | [] => []
  | c :: rest =>
      match rest with
      | lo :: rest' =>
          if isHighSurrogate c && isLowSurrogate lo
          then (if keepUnicode (codePoint c lo)
                then c :: lo :: stripUnicode rest'
                else stripUnicode rest')
          else (if keepUnicode c then c :: stripUnicode rest
                else stripUnicode rest)
      | [] => if keepUnicode c then [c] else []
      end
  end.

(** [/[!-/:-@[-`{-~]/g]: ASCII punctuation, by code unit. *)
Definition isAsciiPunct (c : N) : bool :=
  ((33 <=? c) && (c <=? 47) || (58 <=? c) && (c <=? 64)
   || (91 <=? c) && (c <=? 96) || (123 <=? c) && (c <=? 126))%N.

Definition stripAscii (s : jsstring) : jsstring :=
  filter (fun c => negb (isAsciiPunct c)) s.

Definition normalize (str : jsstring) : jsstring :=
  let lower := toLowerCase rt str in
  let normalized :=
    if hasNormalize rt then normalizeNFC rt lower else lower in
  if unicodeProps rt
  then trim (collapseSpaces (stripUnicode normalized))
  else trim (collapseSpaces (stripAscii normalized)).

Definition fuzzyMatch (query text : jsstring) (threshold : Q) : bool :=
  let normalizedQuery := normalize query in
  let normalizedText := normalize text in
  if includes normalizedText normalizedQuery then true
  else
    let queryWords := splitSpace normalizedQuery in
    let textWords := splitSpace normalizedText in
    forallb (fun queryWord =>
               existsb (fun textWord =>
                          Qle_bool threshold (similarity queryWord textWord))
                       textWords)
            queryWords.

(** The body of [queryWords.forEach]: the state is
    [(totalScore, matchCount)]. *)
Definition scoreWord (textWords : list jsstring) (st : Q * nat)
           (queryWord : jsstring) : Q * nat :=
  match mathMax (map (similarity queryWord) textWords) with
  | Some bestMatch =>
      if Qltb (6 # 10)%Q bestMatch
      then ((fst st + bestMatch)%Q, S (snd st))
      else st
  | None => st
  end.

Definition getMatchScore (query text : jsstring) : Q :=
  let normalizedQuery := normalize query in
  let normalizedText := normalize text in
  if includes normalizedText normalizedQuery then 1%Q
  else
    let queryWords := splitSpace normalizedQuery in
    let textWords := splitSpace normalizedText in
    let st := fold_left (scoreWord textWords) queryWords (0%Q, 0) in
    if 0 <? snd st
    then (fst st / inject_Z (Z.of_nat (List.length queryWords)))%Q
    else 0%Q.
End WithRuntime.

End FuzzySearch.

(** ** class Transliteration *)

Module Transliteration.

(** The entries of [banglaToEnglish] in their order in the source; the
    Bangla words are given by their code units. *)
Definition banglaToEnglish : list (jsstring * jsstring) :=
  [ ([2476; 2494; 2434; 2482; 2494]%N, js "bangla");
    ([2476; 2439]%N, js "boi");
    ([2482; 2503; 2454; 2453]%N, js "lekhok");
    ([2474; 2509; 2480; 2453; 2494; 2486; 2453]%N, js "prokashok");
    ([2474; 2509; 2480; 2453; 2494; 2486; 2472; 2496]%N, js "prokashoni");
    ([2441; 2474; 2472; 2509; 2479; 2494; 2488]%N, js "uponnash");
    ([2453; 2476; 2495; 2468; 2494]%N, js "kobita");
    ([2455; 2482; 2509; 2474]%N, js "golpo");
    ([2439; 2468; 2495; 2489; 2494; 2488]%N, js "itihas");
    ([2476; 2495; 2460; 2509; 2462; 2494; 2472]%N, js "biggan");
    ([2455; 2467; 2495; 2468]%N, js "gonit");
    ([2477; 2498; 2455; 2507; 2482]%N, js "bhugol") ].

(** [Object.fromEntries(entries.map(([k, v]) => [v, k]))]: the values are
    pairwise distinct, so no entry overwrites another. *)
Definition englishToBangla : list (jsstring * jsstring) :=
  map (fun kv => (snd kv, fst kv)) banglaToEnglish.

(** [Object.entries(dict).forEach(([from, to]) => result =
    result.replace(new RegExp(from, 'g'), to))] *)
Definition substitute (dict : list (jsstring * jsstring)) (text : jsstring)
  : jsstring :=
  fold_left (fun result kv => replaceAll (fst kv) (snd kv) result) dict text.

(** [[...new Set(xs)]]: the first occurrence of each string, in order. *)
Definition dedupe (xs : list jsstring) : list jsstring :=
  fold_left (fun seen x => if arrayIncludes seen x then seen else seen ++ [x])
            xs [].

Section WithRuntime.
Variable rt : Runtime.

Definition banglaToEng (text : jsstring) : jsstring :=
  substitute banglaToEnglish (toLowerCase rt text).

Definition engToBangla (text : jsstring) : jsstring :=
  substitute englishToBangla (toLowerCase rt text).

Definition getAllVariations (query : jsstring) : list jsstring :=
  dedupe [query; banglaToEng query; engToBangla query].
End WithRuntime.

End Transliteration.

(** ** class SuggestionEngine

    The static array [suggestions] is the state, passed explicitly. *)

Module SuggestionEngine.
Section WithRuntime.
Variable rt : Runtime.

(** [arr.shift()] *)
Definition shift (arr : list jsstring) : list jsstring := tl arr.

Definition addQuery (query : jsstring) (suggestions : list jsstring)
  : list jsstring :=
  let normalized := FuzzySearch.normalize rt query in
  match normalized with
  | [] => suggestions
  | _ :: _ =>
      if negb (arrayIncludes suggestions normalized)
      then
        let pushed := suggestions ++ [normalized] in
        if 1000 <? List.length pushed then shift pushed else pushed
      else suggestions
  end.

(** The comparator of [getSuggestions]. *)
Definition compareSuggestions (normalized a b : jsstring) : Q :=
  let aStarts := startsWith a normalized in
  let bStarts := startsWith b normalized in
  if aStarts && negb bStarts then (-1)%Q
  else if negb aStarts && bStarts then 1%Q
  else (FuzzySearch.getMatchScore rt normalized b
        - FuzzySearch.getMatchScore rt normalized a)%Q.

Definition getSuggestions (partialQuery : jsstring) (limit : Z)
           (suggestions : list jsstring) : list jsstring :=
  let normalized := FuzzySearch.normalize rt partialQuery in
  match normalized with
  | [] => []
  | _ :: _ =>
      slice0 limit
        (sortBy (compareSuggestions normalized)
           (filter (fun suggestion =>
                      includes suggestion normalized
                      || Qltb (7 # 10)%Q
                           (FuzzySearch.similarity normalized suggestion))
                   suggestions))
  end.
End WithRuntime.
End SuggestionEngine.

(** ** class SearchRanking *)

Record Book : Type := {
  id : jsstring;
  name : jsstring;
  author : option jsstring;
  publisher : option jsstring;
  notes : option jsstring
}.

(** [if (book.field)]: an absent field and the empty string are falsy. *)
Definition present (field : option jsstring) : option jsstring :=
  match field with
  | Some (c :: s) => Some (c :: s)
  | _ => None
  end.

(** [Math.min(x, y)] *)
Definition mathMin (x y : Q) : Q := if Qle_bool x y then x else y.

Module SearchRanking.
Section WithRuntime.
Variable rt : Runtime.

(** The four weighted field terms, before the variations. *)
Definition fieldScore (normalizedQuery : jsstring) (book : Book) : Q :=
  let totalScore := 0%Q in
  let nameScore := FuzzySearch.getMatchScore rt normalizedQuery (name book) in
  let totalScore := (totalScore + nameScore * 5)%Q in
  let totalScore :=
    match present (author book) with
    | Some a => (totalScore + FuzzySearch.getMatchScore rt normalizedQuery a * 3)%Q
    | None => totalScore
    end in
  let totalScore :=
    match present (publisher book) with
    | Some p => (totalScore + FuzzySearch.getMatchScore rt normalizedQuery p * 2)%Q
    | None => totalScore
    end in
  match present (notes book) with
  | Some n => (totalScore + FuzzySearch.getMatchScore rt normalizedQuery n * 1)%Q
  | None => totalScore
  end.

(** The body of [variations.forEach]: [recur] is the recursive call and
    [None] a call that did not return. *)
Definition addVariation (recur : jsstring -> option Q) (query : jsstring)
           (acc : option Q) (variation : jsstring) : option Q :=
  match acc with
  | None => None
  | Some totalScore =>
      if negb (jsstring_eqb variation query)
      then
        match recur variation with
        | Some translitScore => Some (totalScore + translitScore * (8 # 10))%Q
        | None => None
        end
      else Some totalScore
  end.

(** [calculateScore] calls itself on every variation different from the
    query; [fuel] is the depth of call stack left, and [None] is the
    [RangeError] of a stack that ran out. *)
Fixpoint calculateScore (fuel : nat) (query : jsstring) (book : Book)
  : option Q :=
  match fuel with
  | O => None
  | S fuel' =>
      let normalizedQuery := FuzzySearch.normalize rt query in
      let totalScore := fieldScore normalizedQuery book in
      let variations := Transliteration.getAllVariations rt query in
      match
        fold_left
          (addVariation (fun variation => calculateScore fuel' variation book)
                        query)
          variations (Some totalScore)
      with
      | Some totalScore => Some (mathMin totalScore 10%Q)
      | None => None
      end
  end.

(** [items.map(item => ({ item, score }))], failing when a score does. *)
Fixpoint scoreAll (fuel : nat) (query : jsstring) (items : list Book)
  : option (list (Book * Q)) :=
  match items with
  | [] => Some []
  | item :: items' =>
      match calculateScore fuel query item with
      | Some score =>
          match scoreAll fuel query items' with
          | Some rest => Some ((item, score) :: rest)
          | None => None
          end
      | None => None
      end
  end.

Definition rankResults (fuel : nat) (query : jsstring) (items : list Book)
           (threshold : Q) : option (list Book) :=
  match scoreAll fuel query items with
  | Some scored =>
      let scoredItems :=
        sortBy (fun a b => (snd b - snd a)%Q)
               (filter (fun x => Qle_bool threshold (snd x)) scored) in
      Some (map fst scoredItems)
  | None => None
  end.
End WithRuntime.
End SearchRanking.

(** ** DatabaseManager.searchBooks

    The embedded store is a collaborator: [selectLike db term] is the
    answer of the [SELECT ... LIKE] statement for the lower-cased query and
    [selectAll db] the answer of [getAllBooks].  The statements sent to the
    store are logged, and [SuggestionEngine.suggestions] is threaded. *)

Inductive DbCall : Type :=
| SelectLike (term : jsstring)
| SelectAll.

Record Database : Type := {
  selectLike : jsstring -> list Book;
  selectAll : list Book
}.

Record World : Type := {
  suggestions : list jsstring;
  calls : list DbCall
}.

Module DatabaseManager.
Section WithRuntime.
Variable rt : Runtime.
Variable db : Database.

(** [if (!rankedResults.find(existing => existing.id === book.id))
    rankedResults.push(book)] *)
Definition addUnique (rankedResults : list Book) (book : Book) : list Book :=
  if existsb (fun existing => jsstring_eqb (id existing) (id book))
             rankedResults
  then rankedResults
  else rankedResults ++ [book].

(** The loop [for (const variation of variations)]. *)
Fixpoint mergeVariations (fuel : nat) (query : jsstring)
         (allBooks : list Book) (variations : list jsstring)
         (rankedResults : list Book) : option (list Book) :=
  match variations with
  | [] => Some rankedResults
  | variation :: variations' =>
      if negb (jsstring_eqb variation query)
      then
        match SearchRanking.rankResults rt fuel variation allBooks (3 # 10)%Q with
        | Some variantResults =>
            mergeVariations fuel query allBooks variations'
              (fold_left addUnique variantResults rankedResults)
        | None => None
        end
      else mergeVariations fuel query allBooks variations' rankedResults
  end.

Definition searchBooks (fuel : nat) (query : jsstring) (w : World)
  : option (list Book * World) :=
  let term := toLowerCase rt query in
  let ftsResults := selectLike db term in
  let w := {| suggestions := suggestions w;
              calls := calls w ++ [SelectLike term] |} in
  if 3 <=? List.length ftsResults
  then
    Some (ftsResults,
          {| suggestions := SuggestionEngine.addQuery rt query (suggestions w);
             calls := calls w |})
  else
    let allBooks := selectAll db in
    let w := {| suggestions := suggestions w;
                calls := calls w ++ [SelectAll] |} in
    match SearchRanking.rankResults rt fuel query allBooks (3 # 10)%Q with
    | Some rankedResults =>
        let variations := Transliteration.getAllVariations rt query in
        match mergeVariations fuel query allBooks variations rankedResults with
        | Some rankedResults =>
            Some (slice0 50 rankedResults,
                  {| suggestions :=
                       SuggestionEngine.addQuery rt query (suggestions w);
                     calls := calls w |})
        | None => None
        end
    | None => None
    end.
End WithRuntime.
End DatabaseManager.

(** ** A concrete runtime

    [ecma] writes the built-ins out for a part of Unicode: it agrees with
    the ECMAScript built-ins on every string whose code units are ASCII,
    Bengali letters (U+0985 to U+09B9) and digits, Hangul jamo (U+1100 to
    U+11FF) or Hangul syllables (U+AC00 to U+D7A3).  The closed examples
    below stay inside that alphabet. *)

Module Ecma.
Definition inRange (lo hi c : N) : bool := ((lo <=? c) && (c <=? hi))%N.

Definition lowerUnit (c : N) : N := if inRange 65 90 c then (c + 32)%N else c.

Definition lowerCase (s : jsstring) : jsstring := map lowerUnit s.

(** The Bengali block and the ASCII and Hangul letters and digits. *)
Definition letterOrNumber (c : N) : bool :=
  inRange 48 57 c || inRange 65 90 c || inRange 97 122 c
  || (c =? 2432)%N || inRange 2437 2444 c || inRange 2447 2448 c
  || inRange 2451 2472 c || inRange 2474 2480 c || (c =? 2482)%N
  || inRange 2486 2489 c || (c =? 2493)%N || (c =? 2510)%N
  || inRange 2524 2525 c || inRange 2527 2529 c || inRange 2534 2545 c
  || inRange 2548 2553 c || (c =? 2556)%N
  || inRange 4352 4607 c || inRange 44032 55203 c.

(** Hangul composition (Unicode, section 3.12): a leading consonant and a
    vowel make a syllable, which takes a trailing consonant. *)
Definition isL (c : N) : bool := inRange 4352 4370 c.
Definition isV (c : N) : bool := inRange 4449 4469 c.
Definition isT (c : N) : bool := inRange 4520 4546 c.
Definition isLV (c : N) : bool :=
  inRange 44032 55203 c && ((c - 44032) mod 28 =? 0)%N.
Definition composeLV (l v : N) : N :=
  (44032 + ((l - 4352) * 21 + (v - 4449)) * 28)%N.

Fixpoint composeNFC (s : jsstring) : jsstring :=
  match s with
  | c :: rest =>
      match rest with
      | v :: rest' =>
          if isL c && isV v
          then
            match rest' with
            | t :: rest'' =>
                if isT t
                then (composeLV c v + (t - 4519))%N :: composeNFC rest''
                else composeLV c v :: composeNFC rest'
            | [] => [composeLV c v]
            end
          else if isLV c && isT v
               then (c + (v - 4519))%N :: composeNFC rest'
               else c :: composeNFC rest
      | [] => [c]
      end
  | [] => []
  end.

Definition ecma : Runtime :=
  {| toLowerCase := lowerCase;
     hasNormalize := true;
     normalizeNFC := composeNFC;
     unicodeProps := true;
     isLetterOrNumber := letterOrNumber |}.
End Ecma.

(** * Reference definitions

    Definitions that the statements below compare the code with, and the
    sample data of the closed examples. *)

Module Reference.
Import FuzzySearch.

(** The recurrence of the matrix, read on the prefixes backwards: [dist x y]
    is the cell whose row is the prefix [rev y] and whose column is the
    prefix [rev x]. *)
Fixpoint dist (x : jsstring) : jsstring -> nat :=
  fix inner (y : jsstring) : nat :=
    match x, y with
    | [], _ => List.length y
    | _, [] => List.length x
    | a :: x', b :: y' =>
        min3 (dist x' y + 1) (inner y' + 1) (dist x' y' + indicator a b)
    end.

(** The cells of one row, from the column of the prefix [rev acc] on. *)
Fixpoint rowSpec (acc str1 y : jsstring) : list nat :=
  dist acc y ::
  match str1 with
  | [] => []
  | c :: str1' => rowSpec (c :: acc) str1' y
  end.

(** The field score in words.  [bestMatch] is the best similarity of a query
    word against the words of the field and [clearsBar] tells that it is
    above 0.6; [sumBest] adds the best similarities of a list of words. *)
Definition bestMatch (textWords : list jsstring) (queryWord : jsstring)
  : option Q :=
  mathMax (map (similarity queryWord) textWords).

Definition clearsBar (textWords : list jsstring) (queryWord : jsstring)
  : bool :=
  match bestMatch textWords queryWord with
  | Some best => Qltb (6 # 10)%Q best
  | None => false
  end.

Definition sumBest (textWords : list jsstring) (queryWords : list jsstring)
  : Q :=
  fold_right (fun w acc =>
                match bestMatch textWords w with
                | Some best => (best + acc)%Q
                | None => acc
                end) 0%Q queryWords.

(** The average as the specification words it: over the query words that
    clear the bar only. *)
Definition claimedMatchScore (rt : Runtime) (query text : jsstring) : Q :=
  let textWords := splitSpace (normalize rt text) in
  let cleared :=
    filter (clearsBar textWords) (splitSpace (normalize rt query)) in
  match cleared with
  | [] => 0%Q
  | _ :: _ =>
      (sumBest textWords cleared / inject_Z (Z.of_nat (List.length cleared)))%Q
  end.

(** The average over all the query words, the words under the bar counting
    for zero. *)
Definition averagedMatchScore (rt : Runtime) (query text : jsstring) : Q :=
  let textWords := splitSpace (normalize rt text) in
  let queryWords := splitSpace (normalize rt query) in
  let cleared := filter (clearsBar textWords) queryWords in
  match cleared with
  | [] => 0%Q
  | _ :: _ =>
      (sumBest textWords cleared
       / inject_Z (Z.of_nat (List.length queryWords)))%Q
  end.

(** The shape of a stripped text: code units that are kept and are no
    surrogates, and surrogate pairs whose code point is kept. *)
Inductive Tokens (rt : Runtime) : jsstring -> Prop :=
| Tokens_nil : Tokens rt []
| Tokens_unit c s :
    isSurrogate c = false -> keepUnicode rt c = true ->
    Tokens rt s -> Tokens rt (c :: s)
| Tokens_pair hi lo s :
    isHighSurrogate hi = true -> isLowSurrogate lo = true ->
    keepUnicode rt (codePoint hi lo) = true ->
    Tokens rt s -> Tokens rt (hi :: lo :: s).

(** The shape of a text with collapsed white space: every white space is a
    single space U+0020, and none follows [prev] when [prev] is white. *)
Fixpoint spaced (prev : bool) (s : jsstring) : bool :=
  match s with
  | [] => true
  | c :: s' =>
      if isSpace c then (c =? 32)%N && negb prev && spaced true s'
      else spaced false s'
  end.

Definition startsNonSpace (s : jsstring) : bool :=
  match s with
  | [] => true
  | c :: _ => negb (isSpace c)
  end.

(** Two Hangul jamo, G and A, with an exclamation mark between them. *)
Definition jamo_G_bang_A : jsstring := [4352; 33; 4449]%N.

(** The fuzzy path in words: one ranking pass for the query and one for
    each variation that differs from it, all on the whole catalog with
    threshold 0.3; the escalation fails when a pass does. *)
Definition fuzzyPasses (rt : Runtime) (query : jsstring) : list jsstring :=
  query :: filter (fun variation => negb (jsstring_eqb variation query))
                  (Transliteration.getAllVariations rt query).

Fixpoint rankAll (rt : Runtime) (fuel : nat) (catalog : list Book)
         (passes : list jsstring) : option (list (list Book)) :=
  match passes with
  | [] => Some []
  | pass :: passes' =>
      match SearchRanking.rankResults rt fuel pass catalog (3 # 10)%Q with
      | Some ranked =>
          match rankAll rt fuel catalog passes' with
          | Some others => Some (ranked :: others)
          | None => None
          end
      | None => None
      end
  end.

(** Appending to [merged] the records of [ranked] whose id is new. *)
Definition mergeById (merged ranked : list Book) : list Book :=
  fold_left DatabaseManager.addUnique ranked merged.

(** The ranked list of the query, then of each later pass the records whose
    id is new, cut to the first 50. *)
Definition fuzzyPath (rt : Runtime) (fuel : nat) (query : jsstring)
           (catalog : list Book) : option (list Book) :=
  match rankAll rt fuel catalog (fuzzyPasses rt query) with
  | Some (ranked :: others) =>
      Some (firstn 50 (fold_left mergeById others ranked))
  | _ => None
  end.


(** A small catalog, and a store whose indexed statement answers the first
    [k] records of it whatever the term. *)
Definition theHobbit : Book :=
  {| id := js "1"; name := js "The Hobbit";
     author := Some (js "J.R.R. Tolkien"); publisher := None; notes := None |}.
Definition harryPotter : Book :=
  {| id := js "2"; name := js "Harry Potter";
     author := Some (js "J.K. Rowling");
     publisher := Some (js "Bloomsbury"); notes := None |}.
Definition hobbitSongs : Book :=
  {| id := js "3"; name := js "Hobbit Songs";
     author := None; publisher := Some (js "Shire Press");
     notes := Some (js "second hand") |}.
Definition gitanjali : Book :=
  {| id := js "4"; name := js "Gitanjali";
     author := Some (js "Rabindranath Tagore"); publisher := None;
     notes := Some [] |}.

Definition sampleCatalog : list Book :=
  [theHobbit; harryPotter; hobbitSongs; gitanjali].

Definition stubDb (k : nat) : Database :=
  {| selectLike := fun _ => firstn k sampleCatalog;
     selectAll := sampleCatalog |}.

Definition emptyWorld : World := {| suggestions := []; calls := [] |}.

(** Recording a sequence of queries, the first one first. *)
Definition recordAll (rt : Runtime) (queries : list jsstring)
           (buffer : list jsstring) : list jsstring :=
  fold_left (fun b q => SuggestionEngine.addQuery rt q b) queries buffer.

(** Three-letter queries, pairwise distinct for [n < 17576]. *)
Definition sampleQuery (n : nat) : jsstring :=
  [N.of_nat (97 + n mod 26); N.of_nat (97 + (n / 26) mod 26);
   N.of_nat (97 + n / 676)].

Fixpoint distinctb (l : list jsstring) : bool :=
  match l with
  | [] => true
  | x :: l' => negb (arrayIncludes l' x) && distinctb l'
  end.

(** The Bangla word for "book", the dictionary partner of ["boi"]. *)
Definition boi_bangla : jsstring := [2476; 2439]%N.

(** The test of the code for a dictionary entry to apply: [replace] with
    [new RegExp(key, 'g')] finds the key wherever it occurs in the
    lower-cased text, inside a longer word too.  [noKeyOccurs] says that no
    key of either dictionary occurs in the lower-cased query. *)
Definition noKeyOccurs (rt : Runtime) (query : jsstring) : bool :=
  forallb (fun kv => negb (includes (toLowerCase rt query) (fst kv)))
          (Transliteration.banglaToEnglish ++ Transliteration.englishToBangla).






End Reference.

(** * The rest of the search code

    [BanglaPhonetics] from [src/utils/advancedSearch.ts] and the caller of
    [DatabaseManager.searchBooks] in [src/hooks/useBookStore.ts]. *)

(** ** class BanglaPhonetics *)

Module BanglaPhonetics.

(** The entries of [phoneticMap]; every key is one code unit. *)
Definition phoneticMap : list (jsstring * list jsstring) :=
  [ ([2453]%N, [js "k"; js "c"]);
    ([2454]%N, [js "kh"]);
    ([2455]%N, [js "g"]);
    ([2456]%N, [js "gh"]);
    ([2458]%N, [js "ch"; js "c"]);
    ([2459]%N, [js "chh"]);
    ([2460]%N, [js "j"]);
    ([2461]%N, [js "jh"]);
    ([2463]%N, [js "t"]);
    ([2464]%N, [js "th"]);
    ([2465]%N, [js "d"]);
    ([2466]%N, [js "dh"]);
    ([2467]%N, [js "n"]);
    ([2468]%N, [js "t"]);
    ([2469]%N, [js "th"]);
    ([2470]%N, [js "d"]);
    ([2471]%N, [js "dh"]);
    ([2472]%N, [js "n"]);
    ([2474]%N, [js "p"]);
    ([2475]%N, [js "f"; js "ph"]);
    ([2476]%N, [js "b"; js "v"]);
    ([2477]%N, [js "bh"; js "v"]);
    ([2478]%N, [js "m"]);
    ([2479]%N, [js "z"; js "j"]);
    ([2480]%N, [js "r"]);
    ([2482]%N, [js "l"]);
    ([2486]%N, [js "sh"; js "s"]);
    ([2487]%N, [js "sh"; js "s"]);
    ([2488]%N, [js "s"]);
    ([2489]%N, [js "h"]);
    ([2494]%N, [js "a"]);
    ([2495]%N, [js "i"]);
    ([2496]%N, [js "ee"; js "i"]);
    ([2497]%N, [js "u"]);
    ([2498]%N, [js "oo"; js "u"]);
    ([2503]%N, [js "e"]);
    ([2504]%N, [js "oi"]);
    ([2507]%N, [js "o"]);
    ([2508]%N, [js "ou"]) ].

(** [this.phoneticMap[char]] *)
Definition lookupPhonetic (char : jsstring) : option (list jsstring) :=
  match find (fun kv => jsstring_eqb (fst kv) char) phoneticMap with
  | Some kv => Some (snd kv)
  | None => None
  end.

(** [for (const char of text)]: the characters of a string are its code
    points, a surrogate pair being one character of two code units. *)
Fixpoint characters (s : jsstring) : list jsstring :=
  match s with
  | [] => []
  | c :: rest =>
      match rest with
      | lo :: rest' =>
          if isHighSurrogate c && isLowSurrogate lo
          then [c; lo] :: characters rest'
          else [c] :: characters rest
      | [] => [[c]]
      end
  end.

(** [/[a-zA-Z]/.test(char)]: some code unit is an ASCII letter. *)
Definition isAsciiLetter (c : N) : bool :=
  ((97 <=? c) && (c <=? 122) || (65 <=? c) && (c <=? 90))%N.

Definition testAsciiLetter (char : jsstring) : bool :=
  existsb isAsciiLetter char.

(** [s.replace(/\s+/g, '')] *)
Definition removeSpaces (s : jsstring) : jsstring :=
  filter (fun c => negb (isSpace c)) s.

Section WithRuntime.
Variable rt : Runtime.

(** The body of the loop of [toPhonetic]: what one character pushes. *)
Definition pushPhonetic (char : jsstring) : list jsstring :=
  match lookupPhonetic char with
  | Some phonetics => phonetics
  | None => if testAsciiLetter char then [toLowerCase rt char] else []
  end.

Definition toPhonetic (banglaText : jsstring) : list jsstring :=
  flat_map pushPhonetic (characters banglaText).

(** [phoneticChars.join('')] is [List.concat]. *)
Definition phoneticMatch (englishQuery banglaText : jsstring) : bool :=
  let phoneticChars := toPhonetic banglaText in
  let phoneticText := List.concat phoneticChars in
  let normalizedQuery := removeSpaces (toLowerCase rt englishQuery) in
  includes phoneticText normalizedQuery
  || Qltb (7 # 10)%Q (FuzzySearch.similarity normalizedQuery phoneticText).
End WithRuntime.

End BanglaPhonetics.

(** ** useBookStore: searchBooks

    The hook calls [database.searchBooks] and then [database.recordSearch],
    and answers the empty list when the search throws.  The rows inserted by
    [recordSearch] are kept as a list (their id and time stamp, drawn from
    the clock and from [Math.random], are left out); the suggestion buffer
    is the one of [SuggestionEngine]. *)

Record SearchRow : Type := {
  rowQuery : jsstring;
  rowResultsCount : nat
}.

Module BookStore.
Section WithRuntime.
Variable rt : Runtime.
Variable db : Database.

Definition searchBooks (fuel : nat) (query : jsstring)
           (buffer : list jsstring) (rows : list SearchRow)
  : list Book * list jsstring * list SearchRow :=
  match
    DatabaseManager.searchBooks rt db fuel query
      {| suggestions := buffer; calls := [] |}
  with
  | Some (results, w) =>
      (results, suggestions w,
       rows ++ [{| rowQuery := query;
                   rowResultsCount := List.length results |}])
  | None => ([], buffer, rows)
  end.
End WithRuntime.
End BookStore.

(** * Reference definitions, continued *)

Module Coverage.

(** What one code unit contributes to [toPhonetic]. *)
Definition unitPhonetic (rt : Runtime) (c : N) : list jsstring :=
  BanglaPhonetics.pushPhonetic rt [c].

Definition isLowerAscii (c : N) : bool := ((97 <=? c) && (c <=? 122))%N.

(** The pairs of a ranking: the score of every record is the one that
    [calculateScore] gives. *)
Definition scoredBy (rt : Runtime) (fuel : nat) (query : jsstring)
           (x : Book * Q) : Prop :=
  SearchRanking.calculateScore rt fuel query (fst x) = Some (snd x).

(** The comparator of [rankResults], [(a, b) => b.score - a.score]. *)
Definition byScore (a b : Book * Q) : Q := (snd b - snd a)%Q.

(** No score is smaller than the one after it. *)
Definition descending (a b : Book * Q) : Prop := (snd b <= snd a)%Q.

(** No suggestion that starts with the query comes after one that does
    not. *)
Definition prefixBefore (normalized : jsstring) (a b : jsstring) : Prop :=
  startsWith a normalized = false -> startsWith b normalized = false.

(** The three invariants of the suggestion buffer. *)
Definition wellFormedBuffer (buffer : list jsstring) : Prop :=
  NoDup buffer /\ Forall (fun s => s <> []) buffer
  /\ List.length buffer <= 1000.
End Coverage.

(** * Properties *)

(** ** Edit distance *)

Module LevenshteinFacts.
Import FuzzySearch Reference.

Lemma dist_nil_r x : dist x [] = List.length x.
Proof. destruct x; reflexivity. Qed.

Lemma indicator_sym a b : indicator a b = indicator b a.
Proof. unfold indicator. now rewrite N.eqb_sym. Qed.

Lemma dist_cons a x b y :
  dist (a :: x) (b :: y)
  = min3 (dist x (b :: y) + 1) (dist (a :: x) y + 1) (dist x y + indicator a b).
Proof. reflexivity. Qed.

Lemma dist_sym : forall x y, dist x y = dist y x.
Proof.
  induction x as [|a x IHx]; intro y.
  - rewrite dist_nil_r. now destruct y.
  - induction y as [|b y IHy].
    + reflexivity.
    + rewrite !dist_cons, IHy, (IHx (b :: y)), (IHx y), indicator_sym.
      unfold min3. lia.
Qed.

Lemma rowSpec_first : forall str1 acc,
  rowSpec acc str1 [] = seq (List.length acc) (S (List.length str1)).
Proof.
  induction str1 as [|c s IH]; intro acc; simpl.
  - now rewrite dist_nil_r.
  - rewrite dist_nil_r. f_equal. apply (IH (c :: acc)).
Qed.

Lemma fillRow_spec : forall str1 acc c2 y,
  fillRow str1 c2 (rowSpec acc str1 y) (dist acc (c2 :: y))
  = tl (rowSpec acc str1 (c2 :: y)).
Proof.
  induction str1 as [|c1 s IH]; intros acc c2 y.
  - reflexivity.
  - specialize (IH (c1 :: acc) c2 y).
    destruct s as [|c s'];
      cbn [rowSpec tl fillRow] in *; rewrite <- dist_cons; f_equal; exact IH.
Qed.

Lemma rowSpec_unfold acc str1 y :
  rowSpec acc str1 y = dist acc y :: tl (rowSpec acc str1 y).
Proof. destruct str1; reflexivity. Qed.

Lemma fillRows_spec : forall str2 str1 y,
  fillRows str1 str2 (List.length y) (rowSpec [] str1 y)
  = rowSpec [] str1 (rev str2 ++ y).
Proof.
  induction str2 as [|c2 s IH]; intros str1 y.
  - reflexivity.
  - cbn [fillRows rev]. rewrite <- app_assoc. cbn [app].
    rewrite <- (IH str1 (c2 :: y)). cbn [List.length]. f_equal.
    rewrite (rowSpec_unfold [] str1 (c2 :: y)).
    rewrite <- fillRow_spec. reflexivity.
Qed.

Lemma rowSpec_last : forall str1 acc y,
  last (rowSpec acc str1 y) 0 = dist (rev str1 ++ acc) y.
Proof.
  induction str1 as [|c s IH]; intros acc y.
  - reflexivity.
  - cbn [rev]. rewrite <- app_assoc. cbn [app]. rewrite <- IH.
    cbn [rowSpec]. now destruct s.
Qed.

(** The matrix computes the recurrence on the whole strings. *)
Lemma levenshteinDistance_dist str1 str2 :
  levenshteinDistance str1 str2 = dist (rev str1) (rev str2).
Proof.
  unfold levenshteinDistance.
  change (seq 0 (S (List.length str1)))
    with (seq (List.length (@nil N)) (S (List.length str1))).
  rewrite <- (rowSpec_first str1 []).
  change 0 with (List.length (@nil N)) at 1.
  rewrite (fillRows_spec str2 str1 []), rowSpec_last.
  now rewrite !app_nil_r.
Qed.

Lemma levenshteinDistance_sym str1 str2 :
  levenshteinDistance str1 str2 = levenshteinDistance str2 str1.
Proof. rewrite !levenshteinDistance_dist. apply dist_sym. Qed.

Example kitten_sitting :
  levenshteinDistance (js "kitten") (js "sitting") = 3.
Proof. reflexivity. Qed.
End LevenshteinFacts.

(** C8. [similarity] is symmetric: for all strings [a] and [b],
    [similarity a b] and [similarity b a] are the same number, although the
    function first decides which argument is the longer one. *)
Theorem similarity_symmetric (a b : jsstring) :
  FuzzySearch.similarity a b = FuzzySearch.similarity b a.
Proof.
  unfold FuzzySearch.similarity.
  destruct (Nat.ltb_spec (List.length b) (List.length a)) as [Hba | Hba];
    destruct (Nat.ltb_spec (List.length a) (List.length b)) as [Hab | Hab];
    try lia; try reflexivity.
  assert (Hlen : List.length a = List.length b) by lia.
  rewrite Hlen.
  destruct (List.length b =? 0); [reflexivity|].
  now rewrite (LevenshteinFacts.levenshteinDistance_sym b a).
Qed.

(** ** Strings *)

Lemma jsstring_eqb_eq : forall a b, jsstring_eqb a b = true <-> a = b.
Proof.
  induction a as [|x a IH]; destruct b as [|y b]; simpl; split;
    try congruence; try reflexivity.
  - intro H. apply andb_true_iff in H as [Hx Hr].
    apply N.eqb_eq in Hx. apply IH in Hr. now subst.
  - intro H. injection H as -> ->. rewrite N.eqb_refl. now apply IH.
Qed.

Lemma jsstring_eqb_refl a : jsstring_eqb a a = true.
Proof. now apply jsstring_eqb_eq. Qed.

Lemma jsstring_eqb_neq a b : jsstring_eqb a b = false <-> a <> b.
Proof.
  rewrite <- jsstring_eqb_eq. destruct (jsstring_eqb a b); split; congruence.
Qed.

Lemma startsWith_nil s : startsWith s [] = true.
Proof. now destruct s. Qed.

Lemma includes_nil s : includes s [] = true.
Proof. destruct s; reflexivity. Qed.

Lemma arrayIncludes_In arr x : arrayIncludes arr x = true <-> In x arr.
Proof.
  unfold arrayIncludes. rewrite existsb_exists. split.
  - intros [y [Hy He]]. apply jsstring_eqb_eq in He. now subst.
  - intro H. exists x. split; [assumption | apply jsstring_eqb_refl].
Qed.

(** A pattern that does not occur is not replaced. *)
Lemma replaceAll_absent pat by_ : forall s,
  includes s pat = false -> replaceAll pat by_ s = s.
Proof.
  unfold replaceAll. induction s as [|c s IH]; intro H.
  - destruct pat; [discriminate | reflexivity].
  - cbn [includes] in H. apply orb_false_iff in H as [Hs Hi].
    cbn [replaceFrom]. destruct pat as [|p pat].
    + now rewrite startsWith_nil in Hs.
    + rewrite Hs. f_equal. now apply IH.
Qed.

(** ** Query variations *)

Module VariationFacts.
Import Transliteration Reference.

Lemma substitute_absent : forall dict text,
  forallb (fun kv => negb (includes text (fst kv))) dict = true ->
  substitute dict text = text.
Proof.
  unfold substitute. induction dict as [|kv dict IH]; intros text H.
  - reflexivity.
  - cbn [forallb] in H. apply andb_true_iff in H as [Hk Hd].
    apply negb_true_iff in Hk. cbn [fold_left].
    rewrite (replaceAll_absent _ _ _ Hk). now apply IH.
Qed.

Lemma dedupe_lower q l :
  dedupe [q; l; l] = if jsstring_eqb l q then [q] else [q; l].
Proof.
  unfold dedupe, arrayIncludes. cbn [fold_left existsb app].
  destruct (jsstring_eqb l q) eqn:E; cbn [orb app existsb].
  - now rewrite E.
  - rewrite E, jsstring_eqb_refl. reflexivity.
Qed.

Lemma getAllVariations_absent rt q :
  noKeyOccurs rt q = true ->
  getAllVariations rt q
  = if jsstring_eqb (toLowerCase rt q) q then [q] else [q; toLowerCase rt q].
Proof.
  intro H. unfold noKeyOccurs in H. rewrite forallb_app in H.
  apply andb_true_iff in H as [Hb He].
  unfold getAllVariations, banglaToEng, engToBangla.
  rewrite (substitute_absent _ _ Hb), (substitute_absent _ _ He).
  apply dedupe_lower.
Qed.

(** The query comes first among its variations, once: the passes of the
    fuzzy path are the variations. *)
Lemma fuzzyPasses_variations rt q :
  fuzzyPasses rt q = getAllVariations rt q.
Proof.
  unfold fuzzyPasses, getAllVariations.
  generalize (banglaToEng rt q), (engToBangla rt q). intros a b.
  unfold dedupe, arrayIncludes. cbn [fold_left existsb app orb].
  rewrite !orb_false_r.
  destruct (jsstring_eqb a q) eqn:Ea; cbn [existsb app orb];
    rewrite ?orb_false_r;
    destruct (jsstring_eqb b q) eqn:Eb; cbn [orb app filter];
    rewrite ?jsstring_eqb_refl, ?Ea, ?Eb; cbn [negb]; try reflexivity.
  destruct (jsstring_eqb b a) eqn:Eba; cbn [app filter];
    rewrite ?jsstring_eqb_refl, ?Ea, ?Eb; cbn [negb]; reflexivity.
Qed.
End VariationFacts.

(** ** The recursion of [calculateScore] *)

Module ScoreFacts.
Import SearchRanking.

Lemma calculateScore_S rt fuel q book :
  calculateScore rt (S fuel) q book
  = match
      fold_left
        (addVariation (fun variation => calculateScore rt fuel variation book) q)
        (Transliteration.getAllVariations rt q)
        (Some (fieldScore rt (FuzzySearch.normalize rt q) book))
    with
    | Some totalScore => Some (mathMin totalScore 10%Q)
    | None => None
    end.
Proof. reflexivity. Qed.

Lemma forEach_none recur q : forall vs,
  fold_left (addVariation recur q) vs None = None.
Proof. induction vs; [reflexivity | assumption]. Qed.

Lemma forEach_stuck recur q v : forall vs acc,
  In v vs -> v <> q -> recur v = None ->
  fold_left (addVariation recur q) vs acc = None.
Proof.
  induction vs as [|x vs IH]; intros acc Hin Hne Hrec; [destruct Hin|].
  cbn [fold_left]. destruct Hin as [-> | Hin].
  - destruct acc as [t|]; cbn [addVariation]; [|apply forEach_none].
    apply jsstring_eqb_neq in Hne. rewrite Hne, Hrec. cbn [negb].
    apply forEach_none.
  - now apply IH.
Qed.

(** Two queries that are variations of each other call each other for
    ever: no depth of stack is enough. *)
Lemma calculateScore_cycle rt q1 q2 :
  q1 <> q2 ->
  In q2 (Transliteration.getAllVariations rt q1) ->
  In q1 (Transliteration.getAllVariations rt q2) ->
  forall fuel book,
    calculateScore rt fuel q1 book = None
    /\ calculateScore rt fuel q2 book = None.
Proof.
  intros Hne H12 H21. induction fuel as [|fuel IH]; intro book.
  - split; reflexivity.
  - destruct (IH book) as [IH1 IH2]. split; rewrite calculateScore_S.
    + rewrite forEach_stuck with (v := q2); auto.
    + rewrite forEach_stuck with (v := q1); auto.
Qed.

(** A query without dictionary match that lower-casing leaves stable after
    one step is scored within two nested calls. *)
Lemma calculateScore_returns rt q book fuel :
  Reference.noKeyOccurs rt q = true ->
  toLowerCase rt (toLowerCase rt q) = toLowerCase rt q ->
  exists score, calculateScore rt (2 + fuel) q book = Some score.
Proof.
  intros Hq Hl.
  assert (Hlq : Reference.noKeyOccurs rt (toLowerCase rt q) = true).
  { unfold Reference.noKeyOccurs in *. now rewrite Hl. }
  assert (Hin : forall f, exists s,
             calculateScore rt (S f) (toLowerCase rt q) book = Some s).
  { intro f. rewrite calculateScore_S.
    rewrite (VariationFacts.getAllVariations_absent _ _ Hlq), Hl,
      jsstring_eqb_refl.
    cbn [fold_left addVariation]. rewrite jsstring_eqb_refl. cbn [negb].
    eauto. }
  change (2 + fuel) with (S (S fuel)).
  destruct (Hin fuel) as [s Hs].
  rewrite calculateScore_S.
  rewrite (VariationFacts.getAllVariations_absent _ _ Hq).
  destruct (jsstring_eqb (toLowerCase rt q) q) eqn:E;
    cbn [fold_left]; unfold addVariation;
    rewrite jsstring_eqb_refl; cbn [negb].
  - eauto.
  - rewrite E, Hs. cbn [negb]. eauto.
Qed.
End ScoreFacts.

(** C1, on the code.  The query ["boi"] has the variation
    [Reference.boi_bangla], whose variations contain ["boi"] again:
    [calculateScore] on either of them does not return, whatever the record
    and however deep the stack. *)
Theorem calculateScore_boi_never_returns :
  forall (fuel : nat) (book : Book),
    SearchRanking.calculateScore Ecma.ecma fuel (js "boi") book = None
    /\ SearchRanking.calculateScore Ecma.ecma fuel Reference.boi_bangla book
       = None.
Proof.
  intros fuel book.
  apply ScoreFacts.calculateScore_cycle.
  - discriminate.
  - vm_compute. tauto.
  - vm_compute. tauto.
Qed.

(** ** Field scores *)

Module MatchFacts.
Import FuzzySearch Reference.

Lemma fuzzyMatch_empty_query rt query text threshold :
  normalize rt query = [] -> fuzzyMatch rt query text threshold = true.
Proof. intro H. unfold fuzzyMatch. now rewrite H, includes_nil. Qed.

Lemma getMatchScore_empty_query rt query text :
  normalize rt query = [] -> getMatchScore rt query text = 1%Q.
Proof. intro H. unfold getMatchScore. now rewrite H, includes_nil. Qed.

Lemma scoreWord_step textWords st w :
  scoreWord textWords st w
  = match bestMatch textWords w with
    | Some best =>
        if clearsBar textWords w
        then ((fst st + best)%Q, S (snd st))
        else st
    | None => st
    end.
Proof.
  unfold scoreWord, clearsBar, bestMatch.
  now destruct (mathMax (map (similarity w) textWords)).
Qed.

Lemma clearsBar_best textWords w :
  clearsBar textWords w = true -> exists best, bestMatch textWords w = Some best.
Proof.
  unfold clearsBar. destruct (bestMatch textWords w); [eauto | discriminate].
Qed.

(** The loop of [getMatchScore] adds the best matches of the words that
    clear the bar and counts them. *)
Lemma scoreWord_fold textWords : forall queryWords total count,
  let st := fold_left (scoreWord textWords) queryWords (total, count) in
  (fst st == total + sumBest textWords (filter (clearsBar textWords) queryWords))%Q
  /\ snd st = count + List.length (filter (clearsBar textWords) queryWords).
Proof.
  induction queryWords as [|w ws IH]; intros total count; cbn zeta.
  - cbn. split; [ring | lia].
  - cbn [fold_left filter]. rewrite scoreWord_step.
    destruct (clearsBar textWords w) eqn:Ec.
    + destruct (clearsBar_best _ _ Ec) as [best Eb]. rewrite Eb.
      specialize (IH (total + best)%Q (S count)). cbn zeta in IH.
      cbn [fst snd] in *. destruct IH as [IH1 IH2]. split.
      * rewrite IH1. cbn [sumBest fold_right]. rewrite Eb.
        fold (sumBest textWords (filter (clearsBar textWords) ws)). ring.
      * rewrite IH2. cbn [List.length]. lia.
    + destruct (bestMatch textWords w); apply IH.
Qed.
End MatchFacts.

(** C2, as the code has it.  When the normalized field does not contain the
    normalized query, [getMatchScore] is the sum of the best similarities of
    the query words whose best similarity is above 0.6, divided by the
    number of all the query words; it is 0 when no word is above 0.6. *)
Theorem getMatchScore_average (rt : Runtime) (query text : jsstring) :
  includes (FuzzySearch.normalize rt text) (FuzzySearch.normalize rt query)
  = false ->
  (FuzzySearch.getMatchScore rt query text
   == Reference.averagedMatchScore rt query text)%Q.
Proof.
  intro H. unfold FuzzySearch.getMatchScore, Reference.averagedMatchScore.
  rewrite H.
  set (tw := splitSpace (FuzzySearch.normalize rt text)).
  set (qw := splitSpace (FuzzySearch.normalize rt query)).
  destruct (MatchFacts.scoreWord_fold tw qw 0%Q 0) as [Hsum Hcount].
  cbn zeta in *. rewrite Hcount.
  destruct (filter (Reference.clearsBar tw) qw) as [|w ws] eqn:Ef.
  - reflexivity.
  - cbn [List.length Nat.add Nat.ltb Nat.leb]. rewrite Hsum.
    now rewrite Qplus_0_l.
Qed.

Lemma getMatchScore_average_witness :
  includes (FuzzySearch.normalize Ecma.ecma (js "abc"))
           (FuzzySearch.normalize Ecma.ecma (js "abc xyz")) = false
  /\ (FuzzySearch.getMatchScore Ecma.ecma (js "abc xyz") (js "abc")
      == Reference.averagedMatchScore Ecma.ecma (js "abc xyz") (js "abc"))%Q.
Proof.
  split; [reflexivity|].
  exact (getMatchScore_average Ecma.ecma (js "abc xyz") (js "abc") eq_refl).
Defined.

(** C2 as stated fails: of the two words of ["abc xyz"] only ["abc"] is found
    in the field ["abc"]; the code divides its similarity 1 by the two query
    words, the claim by the one word that cleared the bar. *)
Lemma getMatchScore_abc_xyz :
  includes (FuzzySearch.normalize Ecma.ecma (js "abc"))
           (FuzzySearch.normalize Ecma.ecma (js "abc xyz")) = false
  /\ (FuzzySearch.getMatchScore Ecma.ecma (js "abc xyz") (js "abc") == 1 # 2)%Q
  /\ (Reference.claimedMatchScore Ecma.ecma (js "abc xyz") (js "abc") == 1)%Q
  /\ ~ (FuzzySearch.getMatchScore Ecma.ecma (js "abc xyz") (js "abc")
        == Reference.claimedMatchScore Ecma.ecma (js "abc xyz") (js "abc"))%Q.
Proof.
  split; [reflexivity|]. split; [reflexivity|]. split; [reflexivity|].
  vm_compute. discriminate.
Qed.

(** ** Queries that normalize to the empty string *)

Module EmptyQueryFacts.
Import FuzzySearch SearchRanking.

(** With an empty normalized query every field present scores 1. *)
Lemma fieldScore_empty rt book :
  normalize rt [] = [] -> (5 <= fieldScore rt [] book)%Q.
Proof.
  intro H. unfold fieldScore.
  rewrite (MatchFacts.getMatchScore_empty_query rt [] (name book) H).
  destruct (present (author book)) as [a|];
    destruct (present (publisher book)) as [p|];
    destruct (present (notes book)) as [n|];
    rewrite ?(MatchFacts.getMatchScore_empty_query rt [] _ H);
    vm_compute; discriminate.
Qed.

Lemma mathMin_10_ge5 x : (5 <= x)%Q -> (5 <= mathMin x 10)%Q.
Proof.
  intro H. unfold mathMin. destruct (Qle_bool x 10); [assumption|].
  vm_compute. discriminate.
Qed.
End EmptyQueryFacts.

(** C3, on the code.  The query ["?!"] normalizes to the empty string; yet
    [fuzzyMatch] answers [true] and [getMatchScore] 1 on every text, so that
    every record is scored at least 5 and passes the threshold of the
    ranking: nothing short-circuits an empty normalized query. *)
Theorem empty_query_matches_everything :
  FuzzySearch.normalize Ecma.ecma (js "?!") = []
  /\ (forall text threshold,
        FuzzySearch.fuzzyMatch Ecma.ecma (js "?!") text threshold = true)
  /\ (forall text,
        FuzzySearch.getMatchScore Ecma.ecma (js "?!") text = 1%Q)
  /\ (forall book, exists score,
        SearchRanking.calculateScore Ecma.ecma 1 (js "?!") book = Some score
        /\ (5 <= score)%Q).
Proof.
  assert (Hn : FuzzySearch.normalize Ecma.ecma (js "?!") = []) by reflexivity.
  split; [exact Hn|]. split; [|split].
  - intros. now apply MatchFacts.fuzzyMatch_empty_query.
  - intros. now apply MatchFacts.getMatchScore_empty_query.
  - intro book. rewrite ScoreFacts.calculateScore_S, Hn.
    change (Transliteration.getAllVariations Ecma.ecma (js "?!"))
      with [js "?!"].
    cbn [fold_left]. unfold SearchRanking.addVariation.
    rewrite jsstring_eqb_refl. cbn [negb].
    eexists. split; [reflexivity|].
    apply EmptyQueryFacts.mathMin_10_ge5, EmptyQueryFacts.fieldScore_empty.
    reflexivity.
Qed.

(** C10.  When the partial query normalizes to the empty string,
    [getSuggestions] returns the empty list, whatever the buffer and the
    limit. *)
Theorem getSuggestions_empty_query
        (rt : Runtime) (partialQuery : jsstring) (limit : Z)
        (buffer : list jsstring) :
  FuzzySearch.normalize rt partialQuery = [] ->
  SuggestionEngine.getSuggestions rt partialQuery limit buffer = [].
Proof.
  intro H. unfold SuggestionEngine.getSuggestions. now rewrite H.
Qed.

Lemma getSuggestions_empty_query_witness :
  FuzzySearch.normalize Ecma.ecma (js " ., ") = []
  /\ SuggestionEngine.getSuggestions Ecma.ecma (js " ., ") 5
       [js "harry potter"; js "harold"; js "hobbit"] = [].
Proof.
  split; [reflexivity|].
  exact (getSuggestions_empty_query Ecma.ecma (js " ., ") 5
           [js "harry potter"; js "harold"; js "hobbit"] eq_refl).
Defined.

(** ** The suggestion buffer *)

Module SuggestionFacts.
Import FuzzySearch SuggestionEngine Reference.

Lemma distinctb_NoDup : forall l, distinctb l = true -> NoDup l.
Proof.
  induction l as [|x l IH]; intro H; constructor;
    cbn [distinctb] in H; apply andb_true_iff in H as [Hx Hl].
  - apply negb_true_iff in Hx. intro Hin.
    apply arrayIncludes_In in Hin. congruence.
  - now apply IH.
Qed.

Lemma arrayIncludes_false arr x : ~ In x arr -> arrayIncludes arr x = false.
Proof.
  intro H. destruct (arrayIncludes arr x) eqn:E; [|reflexivity].
  now apply arrayIncludes_In in E.
Qed.

Lemma addQuery_empty rt query buffer :
  normalize rt query = [] -> addQuery rt query buffer = buffer.
Proof. intro H. unfold addQuery. now rewrite H. Qed.

Lemma addQuery_present rt query buffer :
  In (normalize rt query) buffer -> addQuery rt query buffer = buffer.
Proof.
  intro H. unfold addQuery. apply arrayIncludes_In in H. rewrite H.
  now destruct (normalize rt query).
Qed.

Lemma addQuery_fresh rt query buffer :
  normalize rt query <> [] -> ~ In (normalize rt query) buffer ->
  addQuery rt query buffer
  = if 1000 <? List.length (buffer ++ [normalize rt query])
    then tl (buffer ++ [normalize rt query])
    else buffer ++ [normalize rt query].
Proof.
  intros Hne Hnot. unfold addQuery, shift.
  rewrite (arrayIncludes_false _ _ Hnot).
  destruct (normalize rt query); [congruence | reflexivity].
Qed.

Lemma tl_skipn {A : Type} : forall (k : nat) (l : list A),
  tl (skipn k l) = skipn (S k) l.
Proof.
  induction k as [|k IH]; intros [|x l]; try reflexivity.
  apply IH.
Qed.

(** After recording queries with pairwise distinct, non-empty
    normalizations, the buffer holds the last 1000 of them in order. *)
Lemma recordAll_distinct rt : forall queries,
  NoDup (map (normalize rt) queries) ->
  Forall (fun q => normalize rt q <> []) queries ->
  recordAll rt queries []
  = skipn (List.length queries - 1000) (map (normalize rt) queries).
Proof.
  induction queries as [|q qs IH] using rev_ind; intros Hnd Hne.
  - reflexivity.
  - rewrite map_app in Hnd. cbn [map] in Hnd.
    apply Forall_app in Hne as [Hne Hq]. inversion Hq as [|? ? Hq' _]; subst.
    assert (Hfresh : ~ In (normalize rt q) (map (normalize rt) qs)).
    { intro Hin. apply NoDup_remove_2 in Hnd. apply Hnd.
      rewrite app_nil_r. exact Hin. }
    apply NoDup_remove_1 in Hnd. rewrite app_nil_r in Hnd.
    unfold recordAll in *. rewrite fold_left_app. cbn [fold_left].
    rewrite (IH Hnd Hne).
    set (l := map (normalize rt) qs) in *.
    set (k := List.length qs - 1000).
    assert (Hl : List.length l = List.length qs) by apply length_map.
    rewrite addQuery_fresh; [|assumption|].
    2:{ intro Hin. apply Hfresh.
        rewrite <- (firstn_skipn k l). apply in_or_app. now right. }
    rewrite length_app, length_skipn, Hl, map_app, length_app.
    cbn [List.length map]. fold l.
    destruct (Nat.ltb_spec 1000 (List.length qs - k + 1)) as [Hbig | Hsmall].
    + assert (Hk : k < List.length l) by (unfold k; lia).
      replace (List.length qs + 1 - 1000) with (S k) by (unfold k; lia).
      rewrite skipn_app.
      replace (S k - List.length l) with 0 by lia.
      change (skipn 0 [normalize rt q]) with [normalize rt q].
      rewrite <- tl_skipn.
      destruct (skipn k l) eqn:Es; [|reflexivity].
      apply (f_equal (@List.length _)) in Es. rewrite length_skipn in Es.
      cbn in Es. lia.
    + replace (List.length qs + 1 - 1000) with 0 by (unfold k in *; lia).
      replace k with 0 by (unfold k in *; lia). reflexivity.
Qed.

Lemma nonempty_Forall rt : forall l,
  forallb (fun q => negb (jsstring_eqb (normalize rt q) [])) l = true ->
  Forall (fun q => normalize rt q <> []) l.
Proof.
  induction l as [|q l IH]; intro H; constructor;
    cbn [forallb] in H; apply andb_true_iff in H as [Hq Hl].
  - apply negb_true_iff in Hq. now apply jsstring_eqb_neq.
  - now apply IH.
Qed.
End SuggestionFacts.

(** C7.  [addQuery] keeps the buffer bounded, first in first out: after
    recording 1001 queries with pairwise distinct, non-empty normalizations
    into the empty buffer, the buffer holds the normalizations of the last
    1000 of them, in order, and the first one is absent; and recording
    changes nothing when the query normalizes to the empty string or when its
    normalization is in the buffer already. *)
Theorem addQuery_bounded_fifo (rt : Runtime) :
  (forall first rest,
      List.length rest = 1000 ->
      NoDup (map (FuzzySearch.normalize rt) (first :: rest)) ->
      Forall (fun q => FuzzySearch.normalize rt q <> []) (first :: rest) ->
      let buffer := Reference.recordAll rt (first :: rest) [] in
      List.length buffer = 1000
      /\ ~ In (FuzzySearch.normalize rt first) buffer
      /\ buffer = map (FuzzySearch.normalize rt) rest)
  /\ (forall query buffer,
        FuzzySearch.normalize rt query = [] ->
        SuggestionEngine.addQuery rt query buffer = buffer)
  /\ (forall query buffer,
        In (FuzzySearch.normalize rt query) buffer ->
        SuggestionEngine.addQuery rt query buffer = buffer).
Proof.
  split; [|split].
  - intros first rest Hlen Hnd Hne buffer.
    assert (Hb : buffer = map (FuzzySearch.normalize rt) rest).
    { unfold buffer. rewrite (SuggestionFacts.recordAll_distinct rt Hnd Hne).
      cbn [List.length]. rewrite Hlen. reflexivity. }
    rewrite Hb. split; [|split].
    + now rewrite length_map.
    + cbn [map] in Hnd. now inversion Hnd.
    + reflexivity.
  - apply SuggestionFacts.addQuery_empty.
  - apply SuggestionFacts.addQuery_present.
Qed.

Lemma addQuery_bounded_fifo_witness :
  (let first := Reference.sampleQuery 0 in
   let rest := map Reference.sampleQuery (seq 1 1000) in
   let buffer := Reference.recordAll Ecma.ecma (first :: rest) [] in
   List.length buffer = 1000
   /\ ~ In (FuzzySearch.normalize Ecma.ecma first) buffer
   /\ buffer = map (FuzzySearch.normalize Ecma.ecma) rest)
  /\ SuggestionEngine.addQuery Ecma.ecma (js " ?") [js "hobbit"] = [js "hobbit"]
  /\ SuggestionEngine.addQuery Ecma.ecma (js "Hobbit!") [js "hobbit"]
     = [js "hobbit"].
Proof.
  destruct (addQuery_bounded_fifo Ecma.ecma) as [Hfifo [Hempty Hpresent]].
  split; [|split].
  - apply Hfifo.
    + now rewrite length_map, length_seq.
    + apply SuggestionFacts.distinctb_NoDup. vm_compute. reflexivity.
    + apply SuggestionFacts.nonempty_Forall. vm_compute. reflexivity.
  - apply Hempty. reflexivity.
  - apply Hpresent. vm_compute. auto.
Defined.

(** ** Retrieval *)

Module RetrievalFacts.
Import DatabaseManager Reference.

Lemma slice0_50 {A : Type} (l : list A) : slice0 50 l = firstn 50 l.
Proof. reflexivity. Qed.

(** The loop over the variations is the remaining passes, merged in turn. *)
Lemma mergeVariations_rankAll rt fuel query catalog : forall variations ranked,
  mergeVariations rt fuel query catalog variations ranked
  = match
      rankAll rt fuel catalog
        (filter (fun v => negb (jsstring_eqb v query)) variations)
    with
    | Some others => Some (fold_left mergeById others ranked)
    | None => None
    end.
Proof.
  induction variations as [|v vs IH]; intro ranked.
  - reflexivity.
  - cbn [mergeVariations filter].
    destruct (negb (jsstring_eqb v query)).
    + cbn [rankAll].
      destruct (SearchRanking.rankResults rt fuel v catalog (3 # 10))
        as [variantResults|]; [|reflexivity].
      rewrite IH.
      destruct (rankAll rt fuel catalog _); reflexivity.
    + apply IH.
Qed.
Lemma sortInsert_perm {A : Type} (cmp : A -> A -> Q) x : forall l,
  Permutation (sortInsert cmp x l) (x :: l).
Proof.
  induction l as [|y l IH]; cbn [sortInsert].
  - apply Permutation_refl.
  - destruct (Qltb (cmp y x) 0).
    + rewrite IH. apply perm_swap.
    + apply Permutation_refl.
Qed.

Lemma sortBy_perm {A : Type} (cmp : A -> A -> Q) : forall l,
  Permutation (sortBy cmp l) l.
Proof.
  induction l as [|x l IH]; cbn [sortBy fold_right].
  - apply Permutation_refl.
  - fold (sortBy cmp l). rewrite sortInsert_perm. now constructor.
Qed.

Lemma scoreAll_items rt fuel query : forall items scored,
  SearchRanking.scoreAll rt fuel query items = Some scored ->
  map fst scored = items.
Proof.
  induction items as [|item items IH]; intros scored H;
    cbn [SearchRanking.scoreAll] in H.
  - now injection H as <-.
  - destruct (SearchRanking.calculateScore rt fuel query item); [|discriminate].
    destruct (SearchRanking.scoreAll rt fuel query items) as [rest|];
      [|discriminate].
    injection H as <-. cbn [map fst]. f_equal. now apply IH.
Qed.



Lemma addUnique_known merged book :
  In (id book) (map id merged) -> addUnique merged book = merged.
Proof.
  intro H. unfold addUnique.
  replace (existsb _ merged) with true; [reflexivity|].
  symmetry. apply existsb_exists. apply in_map_iff in H as [b [Hb Hin]].
  exists b. split; [assumption|]. now apply jsstring_eqb_eq.
Qed.

Lemma addUnique_new merged book :
  ~ In (id book) (map id merged) -> addUnique merged book = merged ++ [book].
Proof.
  intro H. unfold addUnique.
  destruct (existsb _ merged) eqn:E; [|reflexivity].
  exfalso. apply H. apply existsb_exists in E as [b [Hin Hb]].
  apply jsstring_eqb_eq in Hb. apply in_map_iff. eauto.
Qed.



Lemma mergeById_concat : forall others ranked,
  fold_left mergeById others ranked = mergeById ranked (List.concat others).
Proof.
  unfold mergeById. induction others as [|l others IH]; intro ranked.
  - reflexivity.
  - cbn [fold_left List.concat]. now rewrite fold_left_app, IH.
Qed.



(** The two branches of [searchBooks]. *)
Lemma searchBooks_indexed rt db fuel query w :
  3 <= List.length (selectLike db (toLowerCase rt query)) ->
  searchBooks rt db fuel query w
  = Some (selectLike db (toLowerCase rt query),
          {| suggestions := SuggestionEngine.addQuery rt query (suggestions w);
             calls := calls w ++ [SelectLike (toLowerCase rt query)] |}).
Proof.
  intro H. unfold searchBooks. cbn [suggestions calls].
  apply Nat.leb_le in H. now rewrite H.
Qed.

Lemma searchBooks_fuzzy rt db fuel query w :
  List.length (selectLike db (toLowerCase rt query)) < 3 ->
  searchBooks rt db fuel query w
  = match fuzzyPath rt fuel query (selectAll db) with
    | Some results =>
        Some (results,
              {| suggestions :=
                   SuggestionEngine.addQuery rt query (suggestions w);
                 calls := (calls w ++ [SelectLike (toLowerCase rt query)])
                          ++ [SelectAll] |})
    | None => None
    end.
Proof.
  intro H. unfold searchBooks. cbn [suggestions calls].
  apply Nat.leb_gt in H. rewrite H.
  unfold fuzzyPath, fuzzyPasses. cbn [rankAll].
  destruct (SearchRanking.rankResults rt fuel query (selectAll db) (3 # 10))
    as [ranked|]; [|reflexivity].
  rewrite mergeVariations_rankAll.
  destruct (rankAll rt fuel (selectAll db) _); reflexivity.
Qed.
End RetrievalFacts.

(** C4.  [searchBooks] escalates exactly when the indexed pass returns fewer
    than 3 records.  With 3 records or more it returns them as they are,
    whatever the stack depth, and sends the store nothing but the indexed
    statement.  With fewer than 3 it fetches the whole catalog and its
    outcome is the one of the fuzzy path: the ranking with threshold 0.3 of
    the query and of each other variation, merged and cut to 50; these passes
    are one for each element of the set of variations. *)
Theorem searchBooks_escalation
        (rt : Runtime) (db : Database) (fuel : nat) (query : jsstring)
        (w : World) :
  let term := toLowerCase rt query in
  let recorded := SuggestionEngine.addQuery rt query (suggestions w) in
  (3 <= List.length (selectLike db term) ->
   DatabaseManager.searchBooks rt db fuel query w
   = Some (selectLike db term,
           {| suggestions := recorded;
              calls := calls w ++ [SelectLike term] |}))
  /\ (List.length (selectLike db term) < 3 ->
      DatabaseManager.searchBooks rt db fuel query w
      = match Reference.fuzzyPath rt fuel query (selectAll db) with
        | Some results =>
            Some (results,
                  {| suggestions := recorded;
                     calls := (calls w ++ [SelectLike term]) ++ [SelectAll] |})
        | None => None
        end)
  /\ Reference.fuzzyPasses rt query = Transliteration.getAllVariations rt query.
Proof.
  cbn zeta. split; [|split].
  - apply RetrievalFacts.searchBooks_indexed.
  - apply RetrievalFacts.searchBooks_fuzzy.
  - apply VariationFacts.fuzzyPasses_variations.
Qed.

Lemma searchBooks_escalation_witness :
  DatabaseManager.searchBooks Ecma.ecma (Reference.stubDb 3) 0 (js "Hobit")
                              Reference.emptyWorld
  = Some ([Reference.theHobbit; Reference.harryPotter; Reference.hobbitSongs],
          {| suggestions := [js "hobit"];
             calls := [SelectLike (js "hobit")] |})
  /\ DatabaseManager.searchBooks Ecma.ecma (Reference.stubDb 2) 2 (js "Hobit")
                                 Reference.emptyWorld
     = Some ([Reference.theHobbit; Reference.hobbitSongs],
             {| suggestions := [js "hobit"];
                calls := [SelectLike (js "hobit"); SelectAll] |}).
Proof.
  split.
  - refine (proj1 (searchBooks_escalation Ecma.ecma (Reference.stubDb 3) 0
                     (js "Hobit") Reference.emptyWorld) _).
    vm_compute. lia.
  - rewrite (proj1 (proj2 (searchBooks_escalation Ecma.ecma
                               (Reference.stubDb 2) 2 (js "Hobit")
                               Reference.emptyWorld)));
      [reflexivity | vm_compute; lia].
Defined.



(** ** Normalization *)

Module NormalizeFacts.
Import FuzzySearch Reference.

Lemma isSpace_range c :
  isSpace c = true -> (c <= 12288 \/ c = 65279)%N.
Proof.
  unfold isSpace. intro H.
  rewrite ?orb_true_iff, ?andb_true_iff, ?N.leb_le, ?N.eqb_eq in H. lia.
Qed.

Lemma isSurrogate_range c :
  isSurrogate c = true -> (55296 <= c <= 57343)%N.
Proof.
  unfold isSurrogate, isHighSurrogate, isLowSurrogate. intro H.
  rewrite ?orb_true_iff, ?andb_true_iff, ?N.leb_le in H. lia.
Qed.

Lemma surrogate_not_space c : isSurrogate c = true -> isSpace c = false.
Proof.
  intro H. apply isSurrogate_range in H.
  destruct (isSpace c) eqn:E; [|reflexivity].
  apply isSpace_range in E. lia.
Qed.

Lemma high_surrogate c : isHighSurrogate c = true -> isSurrogate c = true.
Proof. unfold isSurrogate. now intros ->. Qed.

Lemma low_surrogate c : isLowSurrogate c = true -> isSurrogate c = true.
Proof. unfold isSurrogate. intros ->. apply orb_true_r. Qed.

Lemma isSpace_32 : isSpace 32 = true.
Proof. reflexivity. Qed.

(** *** White space *)

Lemma spaced_collapseFrom : forall s b, spaced b (collapseFrom b s) = true.
Proof.
  induction s as [|c s IH]; intro b; [reflexivity|].
  cbn [collapseFrom]. destruct (isSpace c) eqn:E.
  - destruct b; [apply IH|].
    cbn [spaced]. rewrite isSpace_32. cbn. apply IH.
  - cbn [spaced]. rewrite E. apply IH.
Qed.

Lemma collapseFrom_spaced : forall s b,
  spaced b s = true -> collapseFrom b s = s.
Proof.
  induction s as [|c s IH]; intros b H; [reflexivity|].
  cbn [spaced collapseFrom] in *. destruct (isSpace c).
  - apply andb_true_iff in H as [H Hs]. apply andb_true_iff in H as [Hc Hb].
    apply N.eqb_eq in Hc. apply negb_true_iff in Hb. subst.
    now rewrite (IH true Hs).
  - now rewrite (IH false H).
Qed.

Lemma spaced_weaken s : spaced true s = true -> spaced false s = true.
Proof.
  destruct s as [|c s]; [reflexivity|]. cbn [spaced].
  destruct (isSpace c); [|trivial].
  rewrite andb_false_r. discriminate.
Qed.

Lemma spaced_any b s : spaced b s = true -> spaced false s = true.
Proof. destruct b; [apply spaced_weaken | trivial]. Qed.

Lemma spaced_trimStart : forall s b,
  spaced b s = true -> spaced false (trimStart s) = true.
Proof.
  induction s as [|c s IH]; intros b H; [reflexivity|].
  cbn [trimStart]. destruct (isSpace c) eqn:E.
  - cbn [spaced] in H. rewrite E in H.
    apply andb_true_iff in H as [_ Hs]. now apply (IH true).
  - now apply spaced_any with (b := b).
Qed.

Lemma spaced_trimEnd : forall s b,
  spaced b s = true -> spaced b (trimEnd s) = true.
Proof.
  induction s as [|c s IH]; intros b H; [reflexivity|].
  cbn [trimEnd]. cbn [spaced] in H. destruct (isSpace c) eqn:E.
  - apply andb_true_iff in H as [Hc Hs]. specialize (IH true Hs).
    destruct (trimEnd s) as [|x r]; [reflexivity|].
    cbn [spaced] in *. now rewrite E, Hc.
  - specialize (IH false H).
    destruct (trimEnd s) as [|x r]; cbn [spaced] in *; now rewrite E.
Qed.

Lemma startsNonSpace_trimStart : forall s, startsNonSpace (trimStart s) = true.
Proof.
  induction s as [|c s IH]; [reflexivity|].
  cbn [trimStart]. destruct (isSpace c) eqn:E; [exact IH|].
  cbn [startsNonSpace]. now rewrite E.
Qed.

Lemma trimStart_startsNonSpace s :
  startsNonSpace s = true -> trimStart s = s.
Proof.
  destruct s as [|c s]; [reflexivity|]. cbn [startsNonSpace trimStart].
  intro H. apply negb_true_iff in H. now rewrite H.
Qed.

Lemma startsNonSpace_trimEnd s :
  startsNonSpace s = true -> startsNonSpace (trimEnd s) = true.
Proof.
  destruct s as [|c s]; [reflexivity|]. cbn [startsNonSpace trimEnd].
  intro H. apply negb_true_iff in H. rewrite H.
  now destruct (trimEnd s); cbn [startsNonSpace]; rewrite H.
Qed.

Lemma trimEnd_idempotent : forall s, trimEnd (trimEnd s) = trimEnd s.
Proof.
  induction s as [|c s IH]; [reflexivity|].
  cbn [trimEnd]. destruct (trimEnd s) as [|x r] eqn:Er.
  - destruct (isSpace c) eqn:E; [reflexivity|]. cbn [trimEnd]. now rewrite E.
  - change (trimEnd (c :: x :: r))
      with (match trimEnd (x :: r) with
            | [] => if isSpace c then [] else [c]
            | r' => c :: r'
            end).
    now rewrite IH.
Qed.

Lemma trim_idempotent s : trim (trim s) = trim s.
Proof.
  unfold trim.
  rewrite (trimStart_startsNonSpace (trimEnd (trimStart s))).
  - apply trimEnd_idempotent.
  - apply startsNonSpace_trimEnd, startsNonSpace_trimStart.
Qed.

Lemma collapse_trim_collapse s :
  collapseSpaces (trim (collapseSpaces s)) = trim (collapseSpaces s).
Proof.
  unfold collapseSpaces, trim. apply collapseFrom_spaced.
  apply spaced_trimEnd, spaced_trimStart with (b := false).
  apply spaced_collapseFrom.
Qed.
(** *** Stripping, by code point *)

Section Strip.
Variable rt : Runtime.
Hypothesis surrogates_no_letters :
  forall c, isSurrogate c = true -> isLetterOrNumber rt c = false.

Lemma keep_not_surrogate c :
  keepUnicode rt c = true -> isSurrogate c = false.
Proof.
  unfold keepUnicode. intro H.
  destruct (isSurrogate c) eqn:E; [|reflexivity].
  now rewrite (surrogates_no_letters c E), (surrogate_not_space c E) in H.
Qed.

Lemma keep_space c : isSpace c = true -> keepUnicode rt c = true.
Proof. unfold keepUnicode. intros ->. apply orb_true_r. Qed.

Lemma space_not_surrogate c : isSpace c = true -> isSurrogate c = false.
Proof. intro H. now apply keep_not_surrogate, keep_space. Qed.

Lemma Tokens_stripUnicode : forall s,
  Tokens rt (stripUnicode rt s) /\ forall c, Tokens rt (stripUnicode rt (c :: s)).
Proof.
  induction s as [|lo s [IH1 IH2]].
  - split; [constructor|]. intro c. cbn [stripUnicode].
    destruct (keepUnicode rt c) eqn:E; [|constructor].
    constructor; [now apply keep_not_surrogate | assumption | constructor].
  - split; [apply IH2|]. intro c.
    change (stripUnicode rt (c :: lo :: s))
      with (if isHighSurrogate c && isLowSurrogate lo
            then (if keepUnicode rt (codePoint c lo)
                  then c :: lo :: stripUnicode rt s
                  else stripUnicode rt s)
            else (if keepUnicode rt c then c :: stripUnicode rt (lo :: s)
                  else stripUnicode rt (lo :: s))).
    destruct (isHighSurrogate c && isLowSurrogate lo) eqn:Ep.
    + apply andb_true_iff in Ep as [Eh El].
      destruct (keepUnicode rt (codePoint c lo)) eqn:Ek; [|assumption].
      now apply Tokens_pair.
    + destruct (keepUnicode rt c) eqn:Ek; [|apply IH2].
      apply Tokens_unit; [now apply keep_not_surrogate | assumption | apply IH2].
Qed.

Lemma stripUnicode_Tokens s : Tokens rt s -> stripUnicode rt s = s.
Proof.
  induction 1 as [|c s Hc Hk _ IH|hi lo s Hh Hl Hk _ IH].
  - reflexivity.
  - unfold isSurrogate in Hc. apply orb_false_iff in Hc as [Hh _].
    cbn [stripUnicode]. destruct s as [|lo s'].
    + now rewrite Hk.
    + rewrite Hh, Hk. cbn [andb]. f_equal. exact IH.
  - cbn [stripUnicode]. rewrite Hh, Hl, Hk. cbn [andb]. now rewrite IH.
Qed.

Lemma Tokens_collapseFrom s : Tokens rt s ->
  forall b, Tokens rt (collapseFrom b s).
Proof.
  induction 1 as [|c s Hc Hk _ IH|hi lo s Hh Hl Hk _ IH]; intro b.
  - constructor.
  - cbn [collapseFrom]. destruct (isSpace c).
    + destruct b; [apply IH|].
      apply Tokens_unit; [reflexivity | now apply keep_space | apply IH].
    + now apply Tokens_unit.
  - cbn [collapseFrom].
    rewrite (surrogate_not_space hi (high_surrogate hi Hh)),
      (surrogate_not_space lo (low_surrogate lo Hl)).
    now apply Tokens_pair.
Qed.

Lemma Tokens_trimStart s : Tokens rt s -> Tokens rt (trimStart s).
Proof.
  induction 1 as [|c s Hc Hk Hs IH|hi lo s Hh Hl Hk Hs IH].
  - constructor.
  - cbn [trimStart]. destruct (isSpace c); [exact IH | now apply Tokens_unit].
  - cbn [trimStart].
    rewrite (surrogate_not_space hi (high_surrogate hi Hh)).
    now apply Tokens_pair.
Qed.

Lemma trimEnd_cons c s :
  isSpace c = false -> trimEnd (c :: s) = c :: trimEnd s.
Proof. intro H. cbn [trimEnd]. rewrite H. now destruct (trimEnd s). Qed.

Lemma Tokens_trimEnd s : Tokens rt s -> Tokens rt (trimEnd s).
Proof.
  induction 1 as [|c s Hc Hk Hs IH|hi lo s Hh Hl Hk Hs IH].
  - constructor.
  - cbn [trimEnd]. destruct (trimEnd s) as [|x r].
    + destruct (isSpace c); [constructor|].
      apply Tokens_unit; [assumption | assumption | constructor].
    + now apply Tokens_unit.
  - rewrite (trimEnd_cons _ _ (surrogate_not_space hi (high_surrogate hi Hh))),
      (trimEnd_cons _ _ (surrogate_not_space lo (low_surrogate lo Hl))).
    now apply Tokens_pair.
Qed.

Lemma strip_trim_collapse_strip s :
  stripUnicode rt (trim (collapseSpaces (stripUnicode rt s)))
  = trim (collapseSpaces (stripUnicode rt s)).
Proof.
  apply stripUnicode_Tokens. unfold trim, collapseSpaces.
  apply Tokens_trimEnd, Tokens_trimStart, Tokens_collapseFrom.
  apply Tokens_stripUnicode.
Qed.
End Strip.

(** *** Stripping ASCII punctuation, by code unit *)

Lemma Forall_collapseFrom (P : N -> Prop) : P 32%N -> forall s b,
  Forall P s -> Forall P (collapseFrom b s).
Proof.
  intros H32 s. induction s as [|c s IH]; intros b H; [constructor|].
  inversion H as [|? ? Hc Hs]; subst. cbn [collapseFrom].
  destruct (isSpace c); [destruct b|]; auto.
Qed.

Lemma Forall_trimStart (P : N -> Prop) : forall s,
  Forall P s -> Forall P (trimStart s).
Proof.
  induction s as [|c s IH]; intro H; [constructor|].
  inversion H; subst. cbn [trimStart]. destruct (isSpace c); auto.
Qed.

Lemma Forall_trimEnd (P : N -> Prop) : forall s,
  Forall P s -> Forall P (trimEnd s).
Proof.
  induction s as [|c s IH]; intro H; [constructor|].
  inversion H as [|? ? Hc Hs]; subst. cbn [trimEnd].
  specialize (IH Hs). destruct (trimEnd s); [destruct (isSpace c)|]; auto.
Qed.

Lemma stripAscii_trim_collapse_strip s :
  stripAscii (trim (collapseSpaces (stripAscii s)))
  = trim (collapseSpaces (stripAscii s)).
Proof.
  unfold stripAscii at 1. apply forallb_filter_id. apply forallb_forall.
  apply Forall_forall. unfold trim, collapseSpaces.
  apply Forall_trimEnd, Forall_trimStart, Forall_collapseFrom; [reflexivity|].
  apply Forall_forall. intros c Hc. unfold stripAscii in Hc.
  now apply filter_In in Hc.
Qed.
(** [ecma] classifies no surrogate as a letter or a number. *)
Lemma inRange_below lo hi c : (hi < c)%N -> Ecma.inRange lo hi c = false.
Proof.
  intro H. unfold Ecma.inRange. apply andb_false_iff. right.
  apply N.leb_gt. exact H.
Qed.

Lemma ecma_surrogates c :
  isSurrogate c = true -> isLetterOrNumber Ecma.ecma c = false.
Proof.
  intro H. apply isSurrogate_range in H.
  cbn [isLetterOrNumber Ecma.ecma]. unfold Ecma.letterOrNumber.
  rewrite !inRange_below by lia.
  repeat match goal with
         | |- context [(c =? ?k)%N] =>
             replace (c =? k)%N with false by (symmetry; apply N.eqb_neq; lia)
         end.
  reflexivity.
Qed.
End NormalizeFacts.

(** The stages of [normalize] are idempotent together on every string whose
    normal form is left as it is by lower-casing and by NFC composition:
    stripping, collapsing the white space and trimming undo nothing of each
    other.  (Surrogate code points are no letters and no numbers.) *)
Theorem normalize_idempotent_stable (rt : Runtime) (s : jsstring) :
  (forall c, isSurrogate c = true -> isLetterOrNumber rt c = false) ->
  toLowerCase rt (FuzzySearch.normalize rt s) = FuzzySearch.normalize rt s ->
  (hasNormalize rt = true ->
   normalizeNFC rt (FuzzySearch.normalize rt s) = FuzzySearch.normalize rt s) ->
  FuzzySearch.normalize rt (FuzzySearch.normalize rt s)
  = FuzzySearch.normalize rt s.
Proof.
  intros Hsur Hlower Hnfc.
  set (out := FuzzySearch.normalize rt s) in *.
  unfold FuzzySearch.normalize at 1. rewrite Hlower.
  assert (Hn : (if hasNormalize rt then normalizeNFC rt out else out) = out).
  { destruct (hasNormalize rt); [now apply Hnfc | reflexivity]. }
  rewrite Hn. clear Hn Hlower Hnfc.
  unfold out, FuzzySearch.normalize.
  destruct (unicodeProps rt).
  - rewrite (NormalizeFacts.strip_trim_collapse_strip rt Hsur),
      NormalizeFacts.collapse_trim_collapse.
    apply NormalizeFacts.trim_idempotent.
  - rewrite NormalizeFacts.stripAscii_trim_collapse_strip,
      NormalizeFacts.collapse_trim_collapse.
    apply NormalizeFacts.trim_idempotent.
Qed.

Lemma normalize_idempotent_stable_witness :
  FuzzySearch.normalize Ecma.ecma (js "  Harry   POTTER!! ") = js "harry potter"
  /\ FuzzySearch.normalize Ecma.ecma
       (FuzzySearch.normalize Ecma.ecma (js "  Harry   POTTER!! "))
     = FuzzySearch.normalize Ecma.ecma (js "  Harry   POTTER!! ").
Proof.
  split; [reflexivity|].
  apply (normalize_idempotent_stable Ecma.ecma (js "  Harry   POTTER!! ")).
  - exact NormalizeFacts.ecma_surrogates.
  - reflexivity.
  - intros _. reflexivity.
Defined.

(** C9, on the code.  [normalize] composes before it strips, so its result
    need not be composed: the exclamation mark keeps the two jamo of
    [Reference.jamo_G_bang_A] apart during NFC composition and is stripped
    afterwards; normalizing the result once more composes them into the
    syllable U+AC00, a different string. *)
Theorem normalize_not_idempotent_hangul :
  FuzzySearch.normalize Ecma.ecma Reference.jamo_G_bang_A = [4352; 4449]%N
  /\ FuzzySearch.normalize Ecma.ecma
       (FuzzySearch.normalize Ecma.ecma Reference.jamo_G_bang_A) = [44032%N]
  /\ FuzzySearch.normalize Ecma.ecma
       (FuzzySearch.normalize Ecma.ecma Reference.jamo_G_bang_A)
     <> FuzzySearch.normalize Ecma.ecma Reference.jamo_G_bang_A.
Proof. split; [reflexivity | split; [reflexivity | discriminate]]. Qed.

(** * Further properties of the code *)

(** ** The edit distance *)

Module DistanceFacts.
Import FuzzySearch Reference LevenshteinFacts.

Lemma dist_nil_l y : dist [] y = List.length y.
Proof. now destruct y. Qed.

Lemma dist_refl : forall x, dist x x = 0.
Proof.
  induction x as [|a x IH]; [reflexivity|].
  rewrite dist_cons, IH. unfold indicator. rewrite N.eqb_refl.
  unfold min3. lia.
Qed.

Lemma dist_upper : forall x y,
  dist x y <= Nat.max (List.length x) (List.length y).
Proof.
  induction x as [|a x IHx]; intro y.
  - rewrite dist_nil_l. cbn [List.length]. lia.
  - induction y as [|b y IHy].
    + rewrite dist_nil_r. lia.
    + rewrite dist_cons. specialize (IHx y). unfold min3, indicator.
      cbn [List.length]. destruct (N.eqb a b); lia.
Qed.

Lemma dist_lower : forall x y,
  List.length x - List.length y <= dist x y
  /\ List.length y - List.length x <= dist x y.
Proof.
  induction x as [|a x IHx]; intro y.
  - rewrite dist_nil_l. cbn [List.length]. lia.
  - induction y as [|b y IHy].
    + rewrite dist_nil_r. cbn [List.length]. lia.
    + rewrite dist_cons.
      pose proof (IHx y) as H1. pose proof (IHx (b :: y)) as H2.
      unfold min3. cbn [List.length] in *. lia.
Qed.

Lemma dist_zero : forall x y, dist x y = 0 -> x = y.
Proof.
  induction x as [|a x IHx]; intros y H.
  - rewrite dist_nil_l in H. now destruct y.
  - destruct y as [|b y]; [discriminate|].
    rewrite dist_cons in H. unfold min3, indicator in H.
    destruct (N.eqb_spec a b) as [->|Hne].
    + f_equal. apply IHx. lia.
    + lia.
Qed.

Lemma rev_eq {A : Type} (x y : list A) : rev x = rev y -> x = y.
Proof.
  intro H. apply (f_equal (@rev A)) in H. now rewrite !rev_involutive in H.
Qed.

Lemma lev_zero a b : levenshteinDistance a b = 0 <-> a = b.
Proof.
  rewrite levenshteinDistance_dist. split.
  - intro H. apply rev_eq. now apply dist_zero.
  - intros ->. apply dist_refl.
Qed.

Lemma lev_bounds a b :
  List.length a - List.length b <= levenshteinDistance a b
  /\ List.length b - List.length a <= levenshteinDistance a b
  /\ levenshteinDistance a b <= Nat.max (List.length a) (List.length b).
Proof.
  rewrite levenshteinDistance_dist.
  pose proof (dist_lower (rev a) (rev b)) as [H1 H2].
  pose proof (dist_upper (rev a) (rev b)) as H3.
  rewrite !length_rev in *. auto.
Qed.
End DistanceFacts.

(** X1.  [levenshteinDistance] is the Levenshtein recurrence: against the
    empty string it is the length of the other string, and on two strings
    that end with [x] and [y] it is the least of one deletion, one insertion
    and the substitution of [y] for [x], free when they are equal. *)
Theorem levenshteinDistance_recurrence :
  (forall b, FuzzySearch.levenshteinDistance [] b = List.length b)
  /\ (forall a, FuzzySearch.levenshteinDistance a [] = List.length a)
  /\ (forall a x b y,
        FuzzySearch.levenshteinDistance (a ++ [x]) (b ++ [y])
        = FuzzySearch.min3
            (FuzzySearch.levenshteinDistance a (b ++ [y]) + 1)
            (FuzzySearch.levenshteinDistance (a ++ [x]) b + 1)
            (FuzzySearch.levenshteinDistance a b + FuzzySearch.indicator x y)).
Proof.
  split; [|split]; intros;
    rewrite !LevenshteinFacts.levenshteinDistance_dist.
  - cbn [rev]. rewrite DistanceFacts.dist_nil_l. apply length_rev.
  - cbn [rev]. rewrite LevenshteinFacts.dist_nil_r. apply length_rev.
  - rewrite !rev_app_distr. cbn [rev app]. apply LevenshteinFacts.dist_cons.
Qed.

(** X2.  The edit distance does not depend on the order of its arguments,
    whatever their lengths. *)
Theorem levenshteinDistance_symmetric (a b : jsstring) :
  FuzzySearch.levenshteinDistance a b = FuzzySearch.levenshteinDistance b a.
Proof.
  rewrite !LevenshteinFacts.levenshteinDistance_dist.
  apply LevenshteinFacts.dist_sym.
Qed.

(** X3.  The edit distance is 0 exactly between equal strings. *)
Theorem levenshteinDistance_zero (a b : jsstring) :
  FuzzySearch.levenshteinDistance a b = 0 <-> a = b.
Proof. apply DistanceFacts.lev_zero. Qed.

(** X4.  The edit distance lies between the difference of the two lengths
    and the greater length. *)
Theorem levenshteinDistance_bounds (a b : jsstring) :
  List.length a - List.length b <= FuzzySearch.levenshteinDistance a b
  /\ List.length b - List.length a <= FuzzySearch.levenshteinDistance a b
  /\ FuzzySearch.levenshteinDistance a b
     <= Nat.max (List.length a) (List.length b).
Proof. apply DistanceFacts.lev_bounds. Qed.

(** ** The similarity ratio *)

Module SimilarityFacts.
Import FuzzySearch.

(** [similarity] by cases: 1 on two empty strings, else the share of the
    longer string that the edits leave. *)
Lemma similarity_cases a b :
  (a = [] /\ b = [] /\ similarity a b = 1%Q)
  \/ (exists longer shorter,
        ((longer = a /\ shorter = b) \/ (longer = b /\ shorter = a))
        /\ List.length shorter <= List.length longer
        /\ 0 < List.length longer
        /\ similarity a b
           = (inject_Z (Z.of_nat (List.length longer)
                        - Z.of_nat (levenshteinDistance longer shorter))
              / inject_Z (Z.of_nat (List.length longer)))%Q).
Proof.
  unfold similarity.
  destruct (Nat.ltb_spec (List.length b) (List.length a)) as [H|H].
  - right. exists a, b. destruct (Nat.eqb_spec (List.length a) 0); [lia|].
    repeat split; auto; lia.
  - destruct (Nat.eqb_spec (List.length b) 0) as [E|E].
    + left. destruct b; [|discriminate]. destruct a; [auto|cbn in H; lia].
    + right. exists b, a. repeat split; auto; lia.
Qed.

Lemma ratio_range (n len : Z) :
  (0 <= n <= len)%Z -> (0 < len)%Z ->
  (0 <= inject_Z n / inject_Z len)%Q /\ (inject_Z n / inject_Z len <= 1)%Q.
Proof.
  intros Hn Hlen.
  assert (Hpos : (0 < inject_Z len)%Q).
  { change 0%Q with (inject_Z 0). rewrite <- Zlt_Qlt. exact Hlen. }
  split.
  - apply Qle_shift_div_l; [exact Hpos|]. rewrite Qmult_0_l.
    change 0%Q with (inject_Z 0). rewrite <- Zle_Qle. lia.
  - apply Qle_shift_div_r; [exact Hpos|]. rewrite Qmult_1_l.
    rewrite <- Zle_Qle. lia.
Qed.

Lemma ratio_one (n len : Z) :
  (0 < len)%Z -> ((inject_Z n / inject_Z len == 1)%Q <-> n = len).
Proof.
  intro Hlen.
  assert (Hne : ~ (inject_Z len == 0)%Q).
  { intro H. change 0%Q with (inject_Z 0) in H.
    apply (proj1 (inject_Z_injective _ _)) in H. lia. }
  split.
  - intro H. apply (proj1 (inject_Z_injective _ _)).
    rewrite <- (Qmult_div_r (inject_Z n) (inject_Z len) Hne), H. ring.
  - intros ->. unfold Qdiv. now apply Qmult_inv_r.
Qed.
End SimilarityFacts.

(** X5.  [similarity] is a ratio between 0 and 1. *)
Theorem similarity_range (a b : jsstring) :
  (0 <= FuzzySearch.similarity a b)%Q /\ (FuzzySearch.similarity a b <= 1)%Q.
Proof.
  destruct (SimilarityFacts.similarity_cases a b)
    as [[_ [_ H]] | [longer [shorter [Hor [Hle [Hpos H]]]]]]; rewrite H.
  - split; discriminate.
  - apply SimilarityFacts.ratio_range; [|lia].
    pose proof (DistanceFacts.lev_bounds longer shorter) as [_ [_ Hup]].
    lia.
Qed.

(** X6.  [similarity] is 1 exactly between equal strings, the two empty
    strings included. *)
Theorem similarity_one (a b : jsstring) :
  (FuzzySearch.similarity a b == 1)%Q <-> a = b.
Proof.
  destruct (SimilarityFacts.similarity_cases a b)
    as [[Ha [Hb H]] | [longer [shorter [Hor [Hle [Hpos H]]]]]]; rewrite H.
  - subst. split; reflexivity.
  - rewrite SimilarityFacts.ratio_one by lia.
    assert (Hz : FuzzySearch.levenshteinDistance longer shorter = 0
                 <-> longer = shorter) by apply DistanceFacts.lev_zero.
    destruct Hor as [[-> ->] | [-> ->]]; split; intro H0.
    + apply Hz. lia.
    + apply Hz in H0. lia.
    + symmetry. apply Hz. lia.
    + symmetry in H0. apply Hz in H0. lia.
Qed.

(** ** The shape of a normalized string *)

Module ShapeFacts.
Import FuzzySearch Reference NormalizeFacts.

Lemma spaced_space : forall s b c,
  spaced b s = true -> In c s -> isSpace c = true -> c = 32%N.
Proof.
  induction s as [|x s IH]; intros b c H Hin Hc; [destruct Hin|].
  cbn [spaced] in H. destruct Hin as [-> | Hin].
  - rewrite Hc in H. apply andb_true_iff in H as [H _].
    apply andb_true_iff in H as [H _]. now apply N.eqb_eq.
  - destruct (isSpace x).
    + apply andb_true_iff in H as [_ H]. eauto.
    + eauto.
Qed.

Lemma trimEnd_fixed c s :
  trimEnd (c :: s) = c :: s ->
  trimEnd s = s /\ (isSpace c = true -> s <> []).
Proof.
  cbn [trimEnd]. destruct (trimEnd s) as [|x r] eqn:E.
  - destruct (isSpace c); [discriminate|].
    intro H. injection H as <-. split; [reflexivity | discriminate].
  - intro H. injection H as <-. split; [reflexivity | discriminate].
Qed.

Lemma space_is_32 c : isSpace c = false -> (c =? 32)%N = false.
Proof.
  intro H. apply N.eqb_neq. intros ->. discriminate.
Qed.

(** The words of a collapsed string that does not end in white space. *)
Lemma splitSpace_spaced : forall s b,
  spaced b s = true -> trimEnd s = s ->
  exists w ws,
    splitSpace s = w :: ws
    /\ Forall (Forall (fun c => isSpace c = false)) (w :: ws)
    /\ Forall (fun x => x <> []) ws
    /\ (s <> [] -> startsNonSpace s = true -> w <> []).
Proof.
  induction s as [|c s IH]; intros b H Ht.
  - exists [], []. repeat split; auto.
  - apply trimEnd_fixed in Ht as [Ht Hne]. cbn [spaced] in H.
    cbn [splitSpace]. destruct (isSpace c) eqn:Ec.
    + apply andb_true_iff in H as [H Hs].
      apply andb_true_iff in H as [Hc _]. rewrite Hc.
      destruct (IH true Hs Ht) as [w [ws [E [Hall [Hws Hw]]]]].
      exists [], (splitSpace s). rewrite E. repeat split.
      * constructor; [constructor | exact Hall].
      * constructor; [|exact Hws]. apply Hw; [now apply Hne|].
        destruct s as [|d s']; [reflexivity|]. cbn [spaced] in Hs.
        cbn [startsNonSpace]. destruct (isSpace d); [|reflexivity].
        rewrite andb_false_r in Hs. discriminate.
      * cbn [startsNonSpace]. rewrite Ec. discriminate.
    + rewrite (space_is_32 c Ec).
      destruct (IH false H Ht) as [w [ws [E [Hall [Hws Hw]]]]].
      rewrite E. exists (c :: w), ws. inversion Hall; subst.
      repeat split; auto. discriminate.
Qed.

Lemma normalize_shaped rt s :
  spaced false (normalize rt s) = true
  /\ startsNonSpace (normalize rt s) = true
  /\ trimEnd (normalize rt s) = normalize rt s.
Proof.
  unfold normalize.
  destruct (unicodeProps rt); unfold trim, collapseSpaces; repeat split;
    try (apply spaced_trimEnd, spaced_trimStart with (b := false),
           spaced_collapseFrom);
    try (apply startsNonSpace_trimEnd, startsNonSpace_trimStart);
    apply trimEnd_idempotent.
Qed.
End ShapeFacts.

(** X7.  A normalized string holds no white space but single spaces U+0020
    between words: it is empty, or splitting it at the spaces gives words
    that are not empty and hold no white space. *)
Theorem normalize_words (rt : Runtime) (s : jsstring) :
  (forall c, In c (FuzzySearch.normalize rt s) -> isSpace c = true ->
             c = 32%N)
  /\ (FuzzySearch.normalize rt s = []
      \/ Forall (fun w => w <> [] /\ Forall (fun c => isSpace c = false) w)
                (splitSpace (FuzzySearch.normalize rt s))).
Proof.
  destruct (ShapeFacts.normalize_shaped rt s) as [Hs [Hn Ht]].
  split.
  - intros c. now apply ShapeFacts.spaced_space with (b := false).
  - destruct (FuzzySearch.normalize rt s) as [|c out] eqn:E; [now left|].
    right.
    destruct (ShapeFacts.splitSpace_spaced _ Hs Ht)
      as [w [ws [Ew [Hall [Hws Hw]]]]].
    rewrite Ew. inversion Hall as [|? ? Hw1 Hws1]; subst.
    constructor.
    + split; [apply Hw; [discriminate | exact Hn] | exact Hw1].
    + apply Forall_forall. intros x Hx. split.
      * revert x Hx. now apply Forall_forall.
      * revert x Hx. now apply Forall_forall.
Qed.

(** ** The range of the scores *)

Module RangeFacts.
Import FuzzySearch Reference.

Lemma splitSpace_nonempty : forall s, splitSpace s <> [].
Proof.
  induction s as [|c s IH]; cbn [splitSpace]; [discriminate|].
  destruct (c =? 32)%N; [discriminate|].
  destruct (splitSpace s); discriminate.
Qed.

Lemma mathMax_fold : forall xs acc best,
  fold_left (fun acc x =>
               match acc with
               | None => Some x
               | Some m => Some (if Qle_bool m x then x else m)
               end) xs acc = Some best ->
  acc = Some best \/ In best xs.
Proof.
  induction xs as [|x xs IH]; intros acc best H; [now left|].
  cbn [fold_left] in H. apply IH in H. destruct H as [H | H].
  - destruct acc as [m|].
    + injection H as H. destruct (Qle_bool m x); subst; cbn; auto.
    + injection H as ->. right. now left.
  - right. now right.
Qed.

(** [Math.max] answers one of its arguments. *)
Lemma mathMax_In xs best : mathMax xs = Some best -> In best xs.
Proof.
  intro H. apply mathMax_fold in H. destruct H; [discriminate | assumption].
Qed.

Lemma similarity_bounds a b :
  (0 <= similarity a b)%Q /\ (similarity a b <= 1)%Q.
Proof.
  destruct (SimilarityFacts.similarity_cases a b)
    as [[_ [_ H]] | [longer [shorter [Hor [Hle [Hpos H]]]]]]; rewrite H.
  - split; discriminate.
  - apply SimilarityFacts.ratio_range; [|lia].
    pose proof (DistanceFacts.lev_bounds longer shorter) as [_ [_ Hup]].
    lia.
Qed.

Lemma bestMatch_bounds textWords w best :
  bestMatch textWords w = Some best -> (0 <= best)%Q /\ (best <= 1)%Q.
Proof.
  unfold bestMatch. intro H. apply mathMax_In in H.
  apply in_map_iff in H as [t [<- _]]. apply similarity_bounds.
Qed.

Lemma inject_S n :
  (inject_Z (Z.of_nat (S n)) == 1 + inject_Z (Z.of_nat n))%Q.
Proof. rewrite Nat2Z.inj_succ, <- Z.add_1_l, inject_Z_plus. reflexivity. Qed.

Lemma sumBest_bounds textWords : forall ws,
  (0 <= sumBest textWords ws)%Q
  /\ (sumBest textWords ws <= inject_Z (Z.of_nat (List.length ws)))%Q.
Proof.
  induction ws as [|w ws [IH0 IH1]]; cbn [sumBest fold_right List.length].
  - split; discriminate.
  - fold (sumBest textWords ws).
    destruct (bestMatch textWords w) as [best|] eqn:E.
    + apply bestMatch_bounds in E as [E0 E1]. rewrite inject_S. split.
      * rewrite <- (Qplus_0_l 0). now apply Qplus_le_compat.
      * now apply Qplus_le_compat.
    + split; [exact IH0|]. rewrite inject_S.
      rewrite <- (Qplus_0_l (sumBest textWords ws)).
      apply Qplus_le_compat; [discriminate | exact IH1].
Qed.

Lemma getMatchScore_bounds rt query text :
  (0 <= getMatchScore rt query text)%Q /\ (getMatchScore rt query text <= 1)%Q.
Proof.
  unfold getMatchScore.
  destruct (includes (normalize rt text) (normalize rt query));
    [split; discriminate|].
  set (tw := splitSpace (normalize rt text)).
  set (qw := splitSpace (normalize rt query)).
  destruct (MatchFacts.scoreWord_fold tw qw 0%Q 0) as [Hsum Hcount].
  cbn zeta in *. rewrite Hcount.
  set (cleared := filter (clearsBar tw) qw) in *.
  destruct (Nat.ltb_spec 0 (0 + List.length cleared)) as [Hpos|_];
    [|split; discriminate].
  rewrite Hsum, Qplus_0_l.
  destruct (sumBest_bounds tw cleared) as [H0 H1].
  assert (Hlen : List.length cleared <= List.length qw)
    by apply filter_length_le.
  assert (Hq : (0 < inject_Z (Z.of_nat (List.length qw)))%Q).
  { change 0%Q with (inject_Z 0). rewrite <- Zlt_Qlt. lia. }
  split.
  - apply Qle_shift_div_l; [exact Hq|]. now rewrite Qmult_0_l.
  - apply Qle_shift_div_r; [exact Hq|]. rewrite Qmult_1_l.
    eapply Qle_trans; [exact H1|]. rewrite <- Zle_Qle. lia.
Qed.
End RangeFacts.

(** X8.  [getMatchScore] is a number between 0 and 1, whatever the query
    and the field. *)
Theorem getMatchScore_range (rt : Runtime) (query text : jsstring) :
  (0 <= FuzzySearch.getMatchScore rt query text)%Q
  /\ (FuzzySearch.getMatchScore rt query text <= 1)%Q.
Proof. apply RangeFacts.getMatchScore_bounds. Qed.

Module CapFacts.
Import FuzzySearch SearchRanking.

Lemma fieldScore_nonneg rt normalizedQuery book :
  (0 <= fieldScore rt normalizedQuery book)%Q.
Proof.
  unfold fieldScore.
  assert (Hm : forall t, (0 <= getMatchScore rt normalizedQuery t)%Q)
    by (intro t; apply RangeFacts.getMatchScore_bounds).
  assert (Hadd : forall x t k, (0 <= x)%Q -> (0 <= k)%Q ->
             (0 <= x + getMatchScore rt normalizedQuery t * k)%Q).
  { intros x t k Hx Hk. rewrite <- (Qplus_0_l 0).
    apply Qplus_le_compat; [exact Hx|]. now apply Qmult_le_0_compat. }
  assert (H1 : (0 <= 0 + getMatchScore rt normalizedQuery (name book) * 5)%Q)
    by (apply Hadd; discriminate).
  destruct (present (author book)); destruct (present (publisher book));
    destruct (present (notes book));
    repeat (apply Hadd; try discriminate); exact H1.
Qed.

Lemma forEach_nonneg recur q :
  (forall v r, recur v = Some r -> (0 <= r)%Q) ->
  forall vs t t',
    (0 <= t)%Q ->
    fold_left (addVariation recur q) vs (Some t) = Some t' -> (0 <= t')%Q.
Proof.
  intros Hrec. induction vs as [|v vs IH]; intros t t' Ht H.
  - cbn in H. now injection H as <-.
  - cbn [fold_left] in H. unfold addVariation at 2 in H.
    destruct (negb (jsstring_eqb v q)); [|now apply (IH t)].
    destruct (recur v) as [r|] eqn:Er.
    + revert H. apply IH. rewrite <- (Qplus_0_l 0).
      apply Qplus_le_compat; [exact Ht|].
      apply Qmult_le_0_compat; [now apply (Hrec v) | discriminate].
    + now rewrite ScoreFacts.forEach_none in H.
Qed.

Lemma mathMin_bounds x :
  (0 <= x)%Q -> (0 <= mathMin x 10)%Q /\ (mathMin x 10 <= 10)%Q.
Proof.
  intro H. unfold mathMin. destruct (Qle_bool x 10) eqn:E.
  - split; [exact H | now apply Qle_bool_iff].
  - split; discriminate.
Qed.

Lemma calculateScore_bounds rt : forall fuel query book score,
  calculateScore rt fuel query book = Some score ->
  (0 <= score)%Q /\ (score <= 10)%Q.
Proof.
  induction fuel as [|fuel IH]; intros query book score H; [discriminate|].
  rewrite ScoreFacts.calculateScore_S in H.
  destruct (fold_left _ _ _) as [total|] eqn:E; [|discriminate].
  injection H as <-. apply mathMin_bounds.
  eapply forEach_nonneg; [|apply fieldScore_nonneg|exact E].
  intros v r Hr. now apply (IH v book r).
Qed.
End CapFacts.

(** X9.  Whenever [calculateScore] returns, the score lies between 0 and
    10. *)
Theorem calculateScore_range
        (rt : Runtime) (fuel : nat) (query : jsstring) (book : Book)
        (score : Q) :
  SearchRanking.calculateScore rt fuel query book = Some score ->
  (0 <= score)%Q /\ (score <= 10)%Q.
Proof. apply CapFacts.calculateScore_bounds. Qed.

Lemma calculateScore_range_witness :
  SearchRanking.calculateScore Ecma.ecma 2 (js "Hobit") Reference.theHobbit
  = Some (2700 # 360)%Q
  /\ (0 <= 2700 # 360)%Q /\ (2700 # 360 <= 10)%Q.
Proof.
  split; [vm_compute; reflexivity|].
  apply (@calculateScore_range Ecma.ecma 2 (js "Hobit") Reference.theHobbit).
  vm_compute. reflexivity.
Defined.

(** ** [fuzzyMatch] and its threshold *)

Module ThresholdFacts.
Import FuzzySearch.

Lemma existsb_impl {A : Type} (p q : A -> bool) :
  (forall x, p x = true -> q x = true) ->
  forall l, existsb p l = true -> existsb q l = true.
Proof.
  intros H l Hl. apply existsb_exists in Hl as [x [Hin Hx]].
  apply existsb_exists. eauto.
Qed.

Lemma forallb_impl {A : Type} (p q : A -> bool) :
  (forall x, p x = true -> q x = true) ->
  forall l, forallb p l = true -> forallb q l = true.
Proof.
  intros H l Hl. rewrite forallb_forall in *. auto.
Qed.

Lemma fuzzyMatch_lower rt query text low high :
  (low <= high)%Q ->
  fuzzyMatch rt query text high = true -> fuzzyMatch rt query text low = true.
Proof.
  unfold fuzzyMatch. intros Hle.
  destruct (includes (normalize rt text) (normalize rt query)); [trivial|].
  apply forallb_impl. intros w. apply existsb_impl. intros t Ht.
  apply Qle_bool_iff. apply Qle_bool_iff in Ht. now apply Qle_trans with high.
Qed.

Lemma fuzzyMatch_nonpositive rt query text threshold :
  (threshold <= 0)%Q -> fuzzyMatch rt query text threshold = true.
Proof.
  unfold fuzzyMatch. intro Hle.
  destruct (includes (normalize rt text) (normalize rt query)); [trivial|].
  apply forallb_forall. intros w _.
  destruct (splitSpace (normalize rt text)) as [|t ts] eqn:E.
  - now apply RangeFacts.splitSpace_nonempty in E.
  - cbn [existsb]. apply orb_true_iff. left. apply Qle_bool_iff.
    apply Qle_trans with 0%Q; [exact Hle|].
    apply RangeFacts.similarity_bounds.
Qed.
End ThresholdFacts.

(** X10.  Lowering the threshold never turns a match of [fuzzyMatch] into
    a miss, and with a threshold of 0 or less every pair of query and text
    matches. *)
Theorem fuzzyMatch_threshold
        (rt : Runtime) (query text : jsstring) (low high : Q) :
  (low <= high)%Q ->
  (FuzzySearch.fuzzyMatch rt query text high = true ->
   FuzzySearch.fuzzyMatch rt query text low = true)
  /\ ((low <= 0)%Q -> FuzzySearch.fuzzyMatch rt query text low = true).
Proof.
  intro Hle. split.
  - now apply ThresholdFacts.fuzzyMatch_lower.
  - apply ThresholdFacts.fuzzyMatch_nonpositive.
Qed.

Lemma fuzzyMatch_threshold_witness :
  FuzzySearch.fuzzyMatch Ecma.ecma (js "hary poter") (js "Harry Potter")
                         (8 # 10)%Q = true
  /\ FuzzySearch.fuzzyMatch Ecma.ecma (js "hary poter") (js "Harry Potter")
                            (6 # 10)%Q = true
  /\ FuzzySearch.fuzzyMatch Ecma.ecma (js "xyz") (js "Harry Potter") 0%Q
     = true.
Proof.
  assert (H68 : (6 # 10 <= 8 # 10)%Q) by (vm_compute; discriminate).
  assert (H00 : (0 <= 0)%Q) by (vm_compute; discriminate).
  split; [vm_compute; reflexivity|]. split.
  - apply (proj1 (@fuzzyMatch_threshold Ecma.ecma (js "hary poter")
                    (js "Harry Potter") (6 # 10)%Q (8 # 10)%Q H68)).
    vm_compute. reflexivity.
  - exact (proj2 (@fuzzyMatch_threshold Ecma.ecma (js "xyz")
                    (js "Harry Potter") 0%Q 0%Q H00) H00).
Defined.

(** ** The ranking *)

Module RankFacts.
Import SearchRanking Coverage.

Lemma Qltb_true x y : Qltb x y = true <-> (x < y)%Q.
Proof.
  unfold Qltb. rewrite negb_true_iff. split.
  - intro H. apply Qnot_le_lt. intro Hle. apply Qle_bool_iff in Hle.
    congruence.
  - intro H. destruct (Qle_bool y x) eqn:E; [|reflexivity].
    apply Qle_bool_iff in E. now apply Qlt_not_le in H.
Qed.

Lemma Qltb_false x y : Qltb x y = false <-> (y <= x)%Q.
Proof.
  unfold Qltb. rewrite negb_false_iff. apply Qle_bool_iff.
Qed.

(** [byScore y x < 0] says that [y] has the greater score. *)
Lemma byScore_before y x :
  Qltb (byScore y x) 0 = true <-> (snd x < snd y)%Q.
Proof.
  rewrite Qltb_true. unfold byScore. split; intro H.
  - apply Qnot_le_lt. intro Hle. apply Qle_minus_iff in Hle.
    now apply Qlt_not_le in H.
  - apply Qnot_le_lt. intro Hle. apply Qle_minus_iff in Hle.
    now apply Qlt_not_le in H.
Qed.

Lemma byScore_after y x :
  Qltb (byScore y x) 0 = false <-> (snd y <= snd x)%Q.
Proof.
  rewrite Qltb_false. unfold byScore. symmetry. apply Qle_minus_iff.
Qed.

Lemma HdRel_sortInsert {A : Type} (R : A -> A -> Prop) (cmp : A -> A -> Q)
      a x l :
  HdRel R a l -> R a x -> HdRel R a (sortInsert cmp x l).
Proof.
  intros Hl Hx. destruct l as [|y l]; cbn [sortInsert].
  - now constructor.
  - inversion Hl; subst. destruct (Qltb (cmp y x) 0); now constructor.
Qed.

Lemma sortInsert_descending x : forall l,
  Sorted descending l -> Sorted descending (sortInsert byScore x l).
Proof.
  induction l as [|y l IH]; intro H; cbn [sortInsert].
  - repeat constructor.
  - inversion H as [|? ? Hs Hh]; subst.
    destruct (Qltb (byScore y x) 0) eqn:E.
    + constructor; [now apply IH|]. apply HdRel_sortInsert; [exact Hh|].
      apply byScore_before in E. now apply Qlt_le_weak.
    + constructor; [exact H|]. constructor. now apply byScore_after in E.
Qed.

Lemma sortBy_descending : forall l, Sorted descending (sortBy byScore l).
Proof.
  induction l as [|x l IH]; cbn [sortBy fold_right]; [constructor|].
  now apply sortInsert_descending.
Qed.

Lemma descending_trans : Relations_1.Transitive descending.
Proof.
  intros a b c Hab Hbc. unfold descending in *. now apply Qle_trans with (snd b).
Qed.

(** Records of equal score keep their order: the sort is stable. *)
Lemma sortInsert_stable (p : Book * Q -> bool) x :
  (forall y, p x = true -> p y = true -> (snd y == snd x)%Q) ->
  forall l,
    filter p (sortInsert byScore x l)
    = if p x then x :: filter p l else filter p l.
Proof.
  intros Hp. induction l as [|y l IH]; cbn [sortInsert filter].
  - reflexivity.
  - destruct (Qltb (byScore y x) 0) eqn:E; cbn [filter]; [|reflexivity].
    rewrite IH. destruct (p x) eqn:Ex; [|reflexivity].
    destruct (p y) eqn:Ey; [|reflexivity].
    apply byScore_before in E. rewrite (Hp y eq_refl Ey) in E.
    now apply Qlt_irrefl in E.
Qed.

Lemma sortBy_stable (score : Q) : forall l,
  filter (fun x => Qeq_bool (snd x) score) (sortBy byScore l)
  = filter (fun x => Qeq_bool (snd x) score) l.
Proof.
  induction l as [|x l IH]; cbn [sortBy fold_right]; [reflexivity|].
  fold (sortBy byScore l). rewrite sortInsert_stable.
  - cbn [filter]. now rewrite IH.
  - intros y Hx Hy. apply Qeq_bool_iff in Hx, Hy. now rewrite Hx, Hy.
Qed.

Lemma scoreAll_scored rt fuel query : forall items scored,
  scoreAll rt fuel query items = Some scored ->
  Forall (scoredBy rt fuel query) scored.
Proof.
  induction items as [|item items IH]; intros scored H; cbn [scoreAll] in H.
  - injection H as <-. constructor.
  - destruct (calculateScore rt fuel query item) as [score|] eqn:E;
      [|discriminate].
    destruct (scoreAll rt fuel query items) as [rest|]; [|discriminate].
    injection H as <-. constructor; [exact E | now apply IH].
Qed.

Lemma rankResults_unfold rt fuel query items threshold ranked :
  rankResults rt fuel query items threshold = Some ranked ->
  exists scored,
    scoreAll rt fuel query items = Some scored
    /\ ranked
       = map fst (sortBy byScore
                    (filter (fun x => Qle_bool threshold (snd x)) scored)).
Proof.
  unfold rankResults. intro H.
  destruct (scoreAll rt fuel query items) as [scored|]; [|discriminate].
  injection H as <-. now exists scored.
Qed.

Lemma filter_length_impl {A : Type} (p q : A -> bool) :
  (forall x, p x = true -> q x = true) ->
  forall l, List.length (filter p l) <= List.length (filter q l).
Proof.
  intros H. induction l as [|x l IH]; cbn [filter]; [lia|].
  destruct (p x) eqn:E.
  - rewrite (H x E). cbn [List.length]. lia.
  - destruct (q x); cbn [List.length]; lia.
Qed.
End RankFacts.

(** X11.  A ranking that returns lists records with their scores in
    descending order, each score being the one of [calculateScore] and none
    below the threshold. *)
Theorem rankResults_ordered
        (rt : Runtime) (fuel : nat) (query : jsstring) (items : list Book)
        (threshold : Q) (ranked : list Book) :
  SearchRanking.rankResults rt fuel query items threshold = Some ranked ->
  exists scored,
    ranked = map fst scored
    /\ Forall (Coverage.scoredBy rt fuel query) scored
    /\ Forall (fun x => (threshold <= snd x)%Q) scored
    /\ StronglySorted Coverage.descending scored.
Proof.
  intro H. apply RankFacts.rankResults_unfold in H as [scored [Hs ->]].
  set (kept := filter (fun x => Qle_bool threshold (snd x)) scored).
  exists (sortBy Coverage.byScore kept).
  assert (Hperm : Permutation kept (sortBy Coverage.byScore kept))
    by apply Permutation_sym, RetrievalFacts.sortBy_perm.
  split; [reflexivity|]. split; [|split].
  - apply (Permutation_Forall Hperm). apply Forall_forall. intros x Hx.
    apply filter_In in Hx as [Hx _].
    apply RankFacts.scoreAll_scored in Hs.
    revert x Hx. now apply Forall_forall.
  - apply (Permutation_Forall Hperm). apply Forall_forall. intros x Hx.
    apply filter_In in Hx as [_ Hx]. now apply Qle_bool_iff.
  - apply Sorted_StronglySorted; [exact RankFacts.descending_trans|].
    apply RankFacts.sortBy_descending.
Qed.

Lemma rankResults_ordered_witness :
  SearchRanking.rankResults Ecma.ecma 2 (js "Hobit") Reference.sampleCatalog
                            (3 # 10)%Q
  = Some [Reference.theHobbit; Reference.hobbitSongs]
  /\ exists scored,
      [Reference.theHobbit; Reference.hobbitSongs] = map fst scored
      /\ Forall (Coverage.scoredBy Ecma.ecma 2 (js "Hobit")) scored
      /\ Forall (fun x => (3 # 10 <= snd x)%Q) scored
      /\ StronglySorted Coverage.descending scored.
Proof.
  assert (H : SearchRanking.rankResults Ecma.ecma 2 (js "Hobit")
                Reference.sampleCatalog (3 # 10)%Q
              = Some [Reference.theHobbit; Reference.hobbitSongs])
    by (vm_compute; reflexivity).
  split; [exact H|]. exact (rankResults_ordered _ _ _ _ _ H).
Defined.

(** X12.  A ranking that returns holds exactly the records of the input
    whose score reaches the threshold: every record returned is one of the
    input, and every record of the input whose score is at least the
    threshold is returned. *)
Theorem rankResults_members
        (rt : Runtime) (fuel : nat) (query : jsstring) (items : list Book)
        (threshold : Q) (ranked : list Book) :
  SearchRanking.rankResults rt fuel query items threshold = Some ranked ->
  (forall book, In book ranked -> In book items)
  /\ (forall book score,
        In book items ->
        SearchRanking.calculateScore rt fuel query book = Some score ->
        (threshold <= score)%Q -> In book ranked)
  /\ List.length ranked <= List.length items.
Proof.
  intro H. apply RankFacts.rankResults_unfold in H as [scored [Hs ->]].
  set (kept := filter (fun x => Qle_bool threshold (snd x)) scored).
  assert (Hperm : Permutation (sortBy Coverage.byScore kept) kept)
    by apply RetrievalFacts.sortBy_perm.
  pose proof (RetrievalFacts.scoreAll_items _ _ _ _ Hs) as Hitems.
  pose proof (RankFacts.scoreAll_scored _ _ _ _ Hs) as Hscored.
  split; [|split].
  - intros book Hin. apply in_map_iff in Hin as [x [<- Hx]].
    apply (Permutation_in _ Hperm) in Hx. apply filter_In in Hx as [Hx _].
    rewrite <- Hitems. now apply in_map.
  - intros book score Hin Hc Hle. rewrite <- Hitems in Hin.
    apply in_map_iff in Hin as [x [<- Hx]].
    apply in_map. apply (Permutation_in _ (Permutation_sym Hperm)).
    apply filter_In. split; [exact Hx|].
    apply Qle_bool_iff.
    assert (Hsx : Coverage.scoredBy rt fuel query x)
      by exact (proj1 (Forall_forall _ _) Hscored x Hx).
    unfold Coverage.scoredBy in Hsx. rewrite Hc in Hsx.
    injection Hsx as <-. exact Hle.
  - rewrite length_map, (Permutation_length Hperm), <- Hitems, length_map.
    apply filter_length_le.
Qed.

Lemma rankResults_members_witness :
  (forall book, In book [Reference.theHobbit; Reference.hobbitSongs] ->
                In book Reference.sampleCatalog)
  /\ (forall book score,
        In book Reference.sampleCatalog ->
        SearchRanking.calculateScore Ecma.ecma 2 (js "Hobit") book
        = Some score ->
        (3 # 10 <= score)%Q ->
        In book [Reference.theHobbit; Reference.hobbitSongs])
  /\ List.length [Reference.theHobbit; Reference.hobbitSongs]
     <= List.length Reference.sampleCatalog.
Proof.
  apply (@rankResults_members Ecma.ecma 2 (js "Hobit") Reference.sampleCatalog
           (3 # 10)%Q).
  vm_compute. reflexivity.
Defined.

(** X13.  The ranking is stable: among the records returned, those of one
    and the same score stand in the order they have in the input. *)
Theorem rankResults_stable
        (rt : Runtime) (fuel : nat) (query : jsstring) (items : list Book)
        (threshold : Q) (ranked : list Book) :
  SearchRanking.rankResults rt fuel query items threshold = Some ranked ->
  exists scoredIn scoredOut,
    map fst scoredIn = items
    /\ Forall (Coverage.scoredBy rt fuel query) scoredIn
    /\ map fst scoredOut = ranked
    /\ forall score,
        filter (fun x => Qeq_bool (snd x) score) scoredOut
        = filter (fun x => Qeq_bool (snd x) score)
            (filter (fun x => Qle_bool threshold (snd x)) scoredIn).
Proof.
  intro H. apply RankFacts.rankResults_unfold in H as [scored [Hs ->]].
  exists scored,
    (sortBy Coverage.byScore
       (filter (fun x => Qle_bool threshold (snd x)) scored)).
  split; [exact (RetrievalFacts.scoreAll_items _ _ _ _ Hs)|].
  split; [exact (RankFacts.scoreAll_scored _ _ _ _ Hs)|].
  split; [reflexivity|]. intro score. apply RankFacts.sortBy_stable.
Qed.

Lemma rankResults_stable_witness :
  exists scoredIn scoredOut,
    map fst scoredIn = Reference.sampleCatalog
    /\ Forall (Coverage.scoredBy Ecma.ecma 2 (js "Hobit")) scoredIn
    /\ map fst scoredOut = [Reference.theHobbit; Reference.hobbitSongs]
    /\ forall score,
        filter (fun x => Qeq_bool (snd x) score) scoredOut
        = filter (fun x => Qeq_bool (snd x) score)
            (filter (fun x => Qle_bool (3 # 10) (snd x)) scoredIn).
Proof.
  apply (@rankResults_stable Ecma.ecma 2 (js "Hobit") Reference.sampleCatalog
           (3 # 10)%Q).
  vm_compute. reflexivity.
Defined.

(** X14.  Raising the threshold never adds a record to a ranking: the
    ranking with the higher threshold holds only records of the ranking
    with the lower one, and no more of them. *)
Theorem rankResults_threshold_monotone
        (rt : Runtime) (fuel : nat) (query : jsstring) (items : list Book)
        (low high : Q) (rankedLow rankedHigh : list Book) :
  (low <= high)%Q ->
  SearchRanking.rankResults rt fuel query items low = Some rankedLow ->
  SearchRanking.rankResults rt fuel query items high = Some rankedHigh ->
  (forall book, In book rankedHigh -> In book rankedLow)
  /\ List.length rankedHigh <= List.length rankedLow.
Proof.
  intros Hle Hlow Hhigh.
  apply RankFacts.rankResults_unfold in Hlow as [scored [Hs ->]].
  apply RankFacts.rankResults_unfold in Hhigh as [scored' [Hs' ->]].
  assert (scored' = scored) by congruence. subst scored'.
  assert (Himp : forall x : Book * Q,
             Qle_bool high (snd x) = true -> Qle_bool low (snd x) = true).
  { intros x Hx. apply Qle_bool_iff. apply Qle_bool_iff in Hx.
    now apply Qle_trans with high. }
  split.
  - intros book Hin. apply in_map_iff in Hin as [x [<- Hx]].
    apply in_map.
    apply (Permutation_in _ (RetrievalFacts.sortBy_perm _ _)) in Hx.
    apply (Permutation_in _
             (Permutation_sym (RetrievalFacts.sortBy_perm _ _))).
    apply filter_In in Hx as [Hx Hb]. apply filter_In. auto.
  - rewrite !length_map,
      !(Permutation_length (RetrievalFacts.sortBy_perm _ _)).
    now apply RankFacts.filter_length_impl.
Qed.

Lemma rankResults_threshold_monotone_witness :
  (forall book,
      In book [Reference.theHobbit; Reference.hobbitSongs] ->
      In book [Reference.theHobbit; Reference.hobbitSongs;
               Reference.harryPotter; Reference.gitanjali])
  /\ List.length [Reference.theHobbit; Reference.hobbitSongs]
     <= List.length [Reference.theHobbit; Reference.hobbitSongs;
                     Reference.harryPotter; Reference.gitanjali].
Proof.
  apply (@rankResults_threshold_monotone Ecma.ecma 2 (js "Hobit")
           Reference.sampleCatalog 0%Q (3 # 10)%Q
           [Reference.theHobbit; Reference.hobbitSongs;
            Reference.harryPotter; Reference.gitanjali]
           [Reference.theHobbit; Reference.hobbitSongs]).
  - vm_compute. discriminate.
  - vm_compute. reflexivity.
  - vm_compute. reflexivity.
Defined.

(** ** The suggestion buffer, continued *)

Module BufferFacts.
Import FuzzySearch SuggestionEngine Coverage.

Lemma NoDup_snoc {A : Type} (l : list A) x :
  NoDup l -> ~ In x l -> NoDup (l ++ [x]).
Proof.
  intros Hl Hx. apply Permutation_NoDup with (l := x :: l).
  - apply Permutation_cons_append.
  - now constructor.
Qed.

Lemma NoDup_tl {A : Type} (l : list A) : NoDup l -> NoDup (tl l).
Proof. intro H. destruct l; [exact H | now inversion H]. Qed.

Lemma Forall_tl {A : Type} (P : A -> Prop) (l : list A) :
  Forall P l -> Forall P (tl l).
Proof. intro H. destruct l; [exact H | now inversion H]. Qed.

Lemma addQuery_wellFormed rt query buffer :
  wellFormedBuffer buffer -> wellFormedBuffer (addQuery rt query buffer).
Proof.
  intros [Hnd [Hne Hlen]].
  destruct (jsstring_eq_dec (normalize rt query) []) as [E|E].
  { rewrite SuggestionFacts.addQuery_empty by exact E. now repeat split. }
  destruct (in_dec jsstring_eq_dec (normalize rt query) buffer) as [Hin|Hin].
  { rewrite SuggestionFacts.addQuery_present by exact Hin. now repeat split. }
  rewrite SuggestionFacts.addQuery_fresh by assumption.
  set (pushed := buffer ++ [normalize rt query]).
  assert (Hnd' : NoDup pushed) by now apply NoDup_snoc.
  assert (Hne' : Forall (fun s => s <> []) pushed).
  { apply Forall_app. split; [exact Hne|]. now repeat constructor. }
  assert (Hlen' : List.length pushed = S (List.length buffer)).
  { unfold pushed. rewrite length_app. cbn. lia. }
  destruct (Nat.ltb_spec 1000 (List.length pushed)) as [Hbig|Hsmall].
  - repeat split; [now apply NoDup_tl | now apply Forall_tl |].
    destruct pushed; cbn [tl List.length] in *; lia.
  - now repeat split.
Qed.

Lemma addQuery_member rt query buffer :
  normalize rt query <> [] -> In (normalize rt query) (addQuery rt query buffer).
Proof.
  intro E.
  destruct (in_dec jsstring_eq_dec (normalize rt query) buffer) as [Hin|Hin].
  { now rewrite SuggestionFacts.addQuery_present. }
  rewrite SuggestionFacts.addQuery_fresh by assumption.
  destruct (Nat.ltb_spec 1000
              (List.length (buffer ++ [normalize rt query]))) as [Hbig|_].
  - destruct buffer as [|b buffer]; [cbn in Hbig; lia|].
    cbn [app tl]. apply in_or_app. right. now left.
  - apply in_or_app. right. now left.
Qed.

Lemma addQuery_twice rt query buffer :
  addQuery rt query (addQuery rt query buffer) = addQuery rt query buffer.
Proof.
  destruct (jsstring_eq_dec (normalize rt query) []) as [E|E].
  - now rewrite !SuggestionFacts.addQuery_empty.
  - apply SuggestionFacts.addQuery_present. now apply addQuery_member.
Qed.

Lemma slice0_firstn {A : Type} (limit : Z) (l : list A) :
  exists k, slice0 limit l = firstn k l
            /\ ((0 <= limit)%Z -> k = Z.to_nat limit).
Proof.
  unfold slice0. destruct (Z.ltb_spec limit 0).
  - eexists. split; [reflexivity | lia].
  - eexists. split; [reflexivity | reflexivity].
Qed.

Lemma In_firstn {A : Type} (x : A) : forall k l, In x (firstn k l) -> In x l.
Proof.
  intros k l H. rewrite <- (firstn_skipn k l). apply in_or_app. now left.
Qed.

(** The comparator of [getSuggestions] never puts an entry that starts
    with the query behind one that does not. *)
Lemma compare_before rt n y x :
  Qltb (compareSuggestions rt n y x) 0 = true -> prefixBefore n y x.
Proof.
  unfold compareSuggestions, prefixBefore. intros H Hy. rewrite Hy in H.
  cbn [andb negb] in H. destruct (startsWith x n); [|reflexivity].
  vm_compute in H. discriminate.
Qed.

Lemma compare_after rt n y x :
  Qltb (compareSuggestions rt n y x) 0 = false -> prefixBefore n x y.
Proof.
  unfold compareSuggestions, prefixBefore. intros H Hx. rewrite Hx in H.
  destruct (startsWith y n); [|reflexivity].
  vm_compute in H. discriminate.
Qed.

Lemma sortInsert_prefix rt n x : forall l,
  Sorted (prefixBefore n) l ->
  Sorted (prefixBefore n) (sortInsert (compareSuggestions rt n) x l).
Proof.
  induction l as [|y l IH]; intro H; cbn [sortInsert].
  - repeat constructor.
  - inversion H as [|? ? Hs Hh]; subst.
    destruct (Qltb (compareSuggestions rt n y x) 0) eqn:E.
    + constructor; [now apply IH|].
      apply RankFacts.HdRel_sortInsert; [exact Hh|].
      now apply compare_before with (rt := rt).
    + constructor; [exact H|]. constructor.
      now apply compare_after with (rt := rt).
Qed.

Lemma sortBy_prefix rt n : forall l,
  Sorted (prefixBefore n) (sortBy (compareSuggestions rt n) l).
Proof.
  induction l as [|x l IH]; cbn [sortBy fold_right]; [constructor|].
  now apply sortInsert_prefix.
Qed.

Lemma prefixBefore_trans n : Relations_1.Transitive (prefixBefore n).
Proof. intros a b c Hab Hbc Ha. auto. Qed.

Lemma StronglySorted_firstn {A : Type} (R : A -> A -> Prop) : forall k l,
  StronglySorted R l -> StronglySorted R (firstn k l).
Proof.
  induction k as [|k IH]; intros l H; [constructor|].
  destruct l as [|x l]; [constructor|]. cbn [firstn].
  inversion H as [|? ? Hs Hall]; subst. constructor; [now apply IH|].
  apply Forall_forall. intros y Hy. apply In_firstn in Hy.
  revert y Hy. now apply Forall_forall.
Qed.
End BufferFacts.

(** X15.  [addQuery] keeps the suggestion buffer well formed: without
    duplicates, without the empty string, and of at most 1000 entries. *)
Theorem addQuery_keeps_buffer
        (rt : Runtime) (query : jsstring) (buffer : list jsstring) :
  Coverage.wellFormedBuffer buffer ->
  Coverage.wellFormedBuffer (SuggestionEngine.addQuery rt query buffer).
Proof. apply BufferFacts.addQuery_wellFormed. Qed.

Lemma addQuery_keeps_buffer_witness :
  Coverage.wellFormedBuffer [js "harry potter"; js "hobbit"]
  /\ Coverage.wellFormedBuffer
       (SuggestionEngine.addQuery Ecma.ecma (js "Harold!")
          [js "harry potter"; js "hobbit"]).
Proof.
  assert (H : Coverage.wellFormedBuffer [js "harry potter"; js "hobbit"]).
  { split; [|split].
    - apply SuggestionFacts.distinctb_NoDup. reflexivity.
    - repeat constructor; discriminate.
    - cbn. lia. }
  split; [exact H|].
  exact (addQuery_keeps_buffer Ecma.ecma (js "Harold!") H).
Defined.

(** X16.  A query whose normalization is not empty is in the buffer once
    [addQuery] has recorded it, and recording the same query a second time
    changes nothing. *)
Theorem addQuery_idempotent
        (rt : Runtime) (query : jsstring) (buffer : list jsstring) :
  (FuzzySearch.normalize rt query <> [] ->
   In (FuzzySearch.normalize rt query)
      (SuggestionEngine.addQuery rt query buffer))
  /\ SuggestionEngine.addQuery rt query
       (SuggestionEngine.addQuery rt query buffer)
     = SuggestionEngine.addQuery rt query buffer.
Proof.
  split.
  - apply BufferFacts.addQuery_member.
  - apply BufferFacts.addQuery_twice.
Qed.

Lemma addQuery_idempotent_witness :
  In (js "harold")
     (SuggestionEngine.addQuery Ecma.ecma (js "Harold!") [js "hobbit"]).
Proof.
  apply (proj1 (addQuery_idempotent Ecma.ecma (js "Harold!") [js "hobbit"])).
  discriminate.
Defined.

(** X17.  Every suggestion returned is an entry of the buffer that
    contains the normalized partial query or is more than 0.7 similar to
    it; no more than [limit] are returned when [limit] is not negative. *)
Theorem getSuggestions_sound
        (rt : Runtime) (partialQuery : jsstring) (limit : Z)
        (buffer : list jsstring) :
  let normalized := FuzzySearch.normalize rt partialQuery in
  let results := SuggestionEngine.getSuggestions rt partialQuery limit buffer in
  (forall s, In s results ->
             In s buffer
             /\ (includes s normalized
                 || Qltb (7 # 10)%Q (FuzzySearch.similarity normalized s))
                = true)
  /\ ((0 <= limit)%Z -> List.length results <= Z.to_nat limit).
Proof.
  cbn zeta. unfold SuggestionEngine.getSuggestions.
  destruct (FuzzySearch.normalize rt partialQuery) as [|c n] eqn:E.
  - split; [intros s []|]. intros _. cbn. lia.
  - destruct (BufferFacts.slice0_firstn limit
                (sortBy (SuggestionEngine.compareSuggestions rt (c :: n))
                   (filter (fun suggestion =>
                              includes suggestion (c :: n)
                              || Qltb (7 # 10)
                                   (FuzzySearch.similarity (c :: n) suggestion))
                           buffer))) as [k [-> Hk]].
    split.
    + intros s Hs. apply BufferFacts.In_firstn in Hs.
      apply (Permutation_in _ (RetrievalFacts.sortBy_perm _ _)) in Hs.
      now apply filter_In in Hs.
    + intro Hl. rewrite <- (Hk Hl). apply firstn_le_length.
Qed.

(** X18.  In the suggestions returned no entry that starts with the
    normalized partial query comes after an entry that does not. *)
Theorem getSuggestions_prefix_first
        (rt : Runtime) (partialQuery : jsstring) (limit : Z)
        (buffer : list jsstring) :
  StronglySorted
    (Coverage.prefixBefore (FuzzySearch.normalize rt partialQuery))
    (SuggestionEngine.getSuggestions rt partialQuery limit buffer).
Proof.
  unfold SuggestionEngine.getSuggestions.
  destruct (FuzzySearch.normalize rt partialQuery) as [|c n] eqn:E.
  - constructor.
  - destruct (BufferFacts.slice0_firstn limit
                (sortBy (SuggestionEngine.compareSuggestions rt (c :: n))
                   (filter (fun suggestion =>
                              includes suggestion (c :: n)
                              || Qltb (7 # 10)
                                   (FuzzySearch.similarity (c :: n) suggestion))
                           buffer))) as [k [-> _]].
    apply BufferFacts.StronglySorted_firstn.
    apply Sorted_StronglySorted; [apply BufferFacts.prefixBefore_trans|].
    apply BufferFacts.sortBy_prefix.
Qed.

(** ** Variations and the dictionary *)

Module DictionaryFacts.
Import Transliteration.

Lemma dedupe_cases q a b :
  dedupe [q; a; b] = [q]
  \/ (dedupe [q; a; b] = [q; a] /\ a <> q)
  \/ (dedupe [q; a; b] = [q; b] /\ b <> q)
  \/ (dedupe [q; a; b] = [q; a; b] /\ a <> q /\ b <> q /\ b <> a).
Proof.
  unfold dedupe, arrayIncludes. cbn [fold_left existsb app orb].
  rewrite !orb_false_r.
  destruct (jsstring_eqb a q) eqn:Ea; cbn [existsb app orb];
    rewrite ?orb_false_r;
    destruct (jsstring_eqb b q) eqn:Eb; cbn [orb app];
    try apply jsstring_eqb_neq in Ea; try apply jsstring_eqb_neq in Eb; auto.
  destruct (jsstring_eqb b a) eqn:Eba; cbn [app];
    try apply jsstring_eqb_neq in Eba; auto 10.
Qed.

Lemma dedupe_In q a b x : In x [q; a; b] -> In x (dedupe [q; a; b]).
Proof.
  unfold dedupe, arrayIncludes. cbn [fold_left existsb app orb].
  rewrite !orb_false_r. intro Hin.
  destruct (jsstring_eqb a q) eqn:Ea; cbn [existsb app orb];
    rewrite ?orb_false_r;
    destruct (jsstring_eqb b q) eqn:Eb; cbn [orb app];
    try apply jsstring_eqb_eq in Ea; try apply jsstring_eqb_eq in Eb;
    subst; try (cbn in *; tauto).
  destruct (jsstring_eqb b a) eqn:Eba; cbn [app];
    try apply jsstring_eqb_eq in Eba; subst; cbn in *; tauto.
Qed.

Lemma entry_roundtrip rt bangla english :
  In (bangla, english) banglaToEnglish ->
  toLowerCase rt bangla = bangla -> toLowerCase rt english = english ->
  banglaToEng rt bangla = english /\ engToBangla rt english = bangla
  /\ bangla <> english.
Proof.
  intros Hin Hb He. unfold banglaToEng, engToBangla. rewrite Hb, He.
  clear Hb He.
  repeat (destruct Hin as [Hin | Hin];
          [injection Hin as <- <-;
           split; [vm_compute; reflexivity
                  | split; [vm_compute; reflexivity | discriminate]]|]).
  destruct Hin.
Qed.
End DictionaryFacts.

(** X19.  The variations of a query begin with the query itself, hold no
    string twice, are at most three, and each is the query or one of its two
    transliterations. *)
Theorem getAllVariations_shape (rt : Runtime) (query : jsstring) :
  exists others,
    Transliteration.getAllVariations rt query = query :: others
    /\ NoDup (query :: others)
    /\ List.length others <= 2
    /\ forall v, In v others ->
                 v = Transliteration.banglaToEng rt query
                 \/ v = Transliteration.engToBangla rt query.
Proof.
  unfold Transliteration.getAllVariations.
  destruct (DictionaryFacts.dedupe_cases query
              (Transliteration.banglaToEng rt query)
              (Transliteration.engToBangla rt query))
    as [-> | [[-> Ha] | [[-> Hb] | [-> [Ha [Hb Hba]]]]]];
    eexists; (split; [reflexivity|]); (split; [|split]);
    try (cbn; lia);
    try (intros v Hv; cbn in Hv; intuition);
    repeat constructor; cbn; intuition congruence.
Qed.

(** X20.  The two directions of the dictionary undo each other on its
    words: on a runtime that leaves both words of an entry as they are when
    lower-casing, [banglaToEng] maps the Bangla word to the English one and
    [engToBangla] the English word to the Bangla one. *)
Theorem dictionary_roundtrip
        (rt : Runtime) (bangla english : jsstring) :
  In (bangla, english) Transliteration.banglaToEnglish ->
  toLowerCase rt bangla = bangla ->
  toLowerCase rt english = english ->
  Transliteration.banglaToEng rt bangla = english
  /\ Transliteration.engToBangla rt english = bangla.
Proof.
  intros Hin Hb He.
  destruct (@DictionaryFacts.entry_roundtrip rt _ _ Hin Hb He) as [H1 [H2 _]].
  now split.
Qed.

Lemma dictionary_roundtrip_witness :
  Transliteration.banglaToEng Ecma.ecma [2453; 2476; 2495; 2468; 2494]%N
  = js "kobita"
  /\ Transliteration.engToBangla Ecma.ecma (js "kobita")
     = [2453; 2476; 2495; 2468; 2494]%N.
Proof.
  apply (@dictionary_roundtrip Ecma.ecma [2453; 2476; 2495; 2468; 2494]%N
           (js "kobita")).
  - vm_compute. tauto.
  - reflexivity.
  - reflexivity.
Defined.

(** X21.  Whenever a query has a variation other than itself whose own
    variations contain the query, [calculateScore] does not return on it,
    whatever the record and however deep the stack. *)
Theorem calculateScore_mutual_variations
        (rt : Runtime) (query variation : jsstring) (fuel : nat)
        (book : Book) :
  variation <> query ->
  In variation (Transliteration.getAllVariations rt query) ->
  In query (Transliteration.getAllVariations rt variation) ->
  SearchRanking.calculateScore rt fuel query book = None.
Proof.
  intros Hne H1 H2.
  refine (proj1 (@ScoreFacts.calculateScore_cycle rt query variation
                   _ H1 H2 fuel book)).
  congruence.
Qed.

Lemma calculateScore_mutual_variations_witness :
  SearchRanking.calculateScore Ecma.ecma 1000 (js "bangla boi")
                               Reference.theHobbit = None.
Proof.
  apply (@calculateScore_mutual_variations Ecma.ecma (js "bangla boi")
           [2476; 2494; 2434; 2482; 2494; 32; 2476; 2439]%N).
  - discriminate.
  - vm_compute. tauto.
  - vm_compute. tauto.
Defined.

(** X22.  [calculateScore] returns on no word of the dictionary, in either
    script (on a runtime that leaves the two words as they are when
    lower-casing). *)
Theorem calculateScore_dictionary_word
        (rt : Runtime) (bangla english : jsstring) (fuel : nat)
        (book : Book) :
  In (bangla, english) Transliteration.banglaToEnglish ->
  toLowerCase rt bangla = bangla ->
  toLowerCase rt english = english ->
  SearchRanking.calculateScore rt fuel bangla book = None
  /\ SearchRanking.calculateScore rt fuel english book = None.
Proof.
  intros Hin Hb He.
  destruct (@DictionaryFacts.entry_roundtrip rt _ _ Hin Hb He)
    as [H1 [H2 Hne]].
  apply ScoreFacts.calculateScore_cycle.
  - exact Hne.
  - unfold Transliteration.getAllVariations.
    apply DictionaryFacts.dedupe_In. rewrite H1. cbn. tauto.
  - unfold Transliteration.getAllVariations.
    apply DictionaryFacts.dedupe_In. rewrite H2. cbn. tauto.
Qed.

Lemma calculateScore_dictionary_word_witness :
  SearchRanking.calculateScore Ecma.ecma 1000
    [2453; 2476; 2495; 2468; 2494]%N Reference.gitanjali = None
  /\ SearchRanking.calculateScore Ecma.ecma 1000 (js "kobita")
       Reference.gitanjali = None.
Proof.
  apply (@calculateScore_dictionary_word Ecma.ecma
           [2453; 2476; 2495; 2468; 2494]%N (js "kobita")).
  - vm_compute. tauto.
  - reflexivity.
  - reflexivity.
Defined.

(** ** Phonetic folding *)

Module PhoneticFacts.
Import BanglaPhonetics Coverage.

(** The keys of [phoneticMap] are single Bengali code units, and its
    spellings are made of lower-case ASCII letters. *)
Lemma lookupPhonetic_key char phonetics :
  lookupPhonetic char = Some phonetics ->
  (exists c, char = [c] /\ (2453 <= c <= 2508)%N)
  /\ Forall (Forall (fun c => isLowerAscii c = true)) phonetics.
Proof.
  unfold lookupPhonetic.
  destruct (find (fun kv => jsstring_eqb (fst kv) char) phoneticMap)
    as [kv|] eqn:E; [|discriminate].
  intro H. injection H as <-. apply find_some in E as [Hin Heq].
  apply jsstring_eqb_eq in Heq. subst char.
  repeat (destruct Hin as [<- | Hin];
          [split; [eexists; split; [reflexivity | lia]
                  | repeat constructor]|]).
  destruct Hin.
Qed.

Lemma isAsciiLetter_range c : isAsciiLetter c = true -> (65 <= c <= 122)%N.
Proof.
  unfold isAsciiLetter. intro H.
  rewrite ?orb_true_iff, ?andb_true_iff, ?N.leb_le in H. lia.
Qed.

Lemma isAsciiLetter_cases c :
  isAsciiLetter c = true -> (97 <= c <= 122 \/ 65 <= c <= 90)%N.
Proof.
  unfold isAsciiLetter. intro H.
  rewrite ?orb_true_iff, ?andb_true_iff, ?N.leb_le in H. lia.
Qed.

Lemma surrogate_no_letter c : isSurrogate c = true -> isAsciiLetter c = false.
Proof.
  intro H. apply NormalizeFacts.isSurrogate_range in H.
  destruct (isAsciiLetter c) eqn:E; [|reflexivity].
  apply isAsciiLetter_range in E. lia.
Qed.

Lemma surrogate_unit rt c : isSurrogate c = true -> unitPhonetic rt c = [].
Proof.
  intro H. unfold unitPhonetic, pushPhonetic.
  destruct (lookupPhonetic [c]) as [p|] eqn:E.
  - apply lookupPhonetic_key in E as [[k [Hk Hr]] _].
    injection Hk as ->. apply NormalizeFacts.isSurrogate_range in H. lia.
  - cbn [testAsciiLetter existsb]. now rewrite (surrogate_no_letter c H).
Qed.

Lemma pair_push rt hi lo :
  isHighSurrogate hi = true -> isLowSurrogate lo = true ->
  pushPhonetic rt [hi; lo] = [].
Proof.
  intros Hh Hl. unfold pushPhonetic.
  destruct (lookupPhonetic [hi; lo]) as [p|] eqn:E.
  - apply lookupPhonetic_key in E as [[k [Hk _]] _]. discriminate.
  - cbn [testAsciiLetter existsb].
    now rewrite (surrogate_no_letter hi (NormalizeFacts.high_surrogate hi Hh)),
      (surrogate_no_letter lo (NormalizeFacts.low_surrogate lo Hl)).
Qed.

(** Reading by code point or by code unit gives the same phonetics: a
    surrogate contributes nothing either way. *)
Lemma toPhonetic_units rt : forall s,
  toPhonetic rt s = flat_map (unitPhonetic rt) s
  /\ forall c, toPhonetic rt (c :: s) = flat_map (unitPhonetic rt) (c :: s).
Proof.
  unfold toPhonetic. induction s as [|lo s [IH1 IH2]].
  - split; [reflexivity|]. intro c. cbn. reflexivity.
  - split; [apply IH2|]. intro c.
    change (characters (c :: lo :: s))
      with (if isHighSurrogate c && isLowSurrogate lo
            then [c; lo] :: characters s
            else [c] :: characters (lo :: s)).
    destruct (isHighSurrogate c && isLowSurrogate lo) eqn:Ep.
    + apply andb_true_iff in Ep as [Eh El].
      cbn [flat_map]. rewrite (pair_push rt c lo Eh El), IH1.
      rewrite (surrogate_unit rt c (NormalizeFacts.high_surrogate c Eh)),
        (surrogate_unit rt lo (NormalizeFacts.low_surrogate lo El)).
      reflexivity.
    + cbn [flat_map]. rewrite IH2. reflexivity.
Qed.

Lemma letter_unit rt c :
  isAsciiLetter c = true -> unitPhonetic rt c = [toLowerCase rt [c]].
Proof.
  intro H. unfold unitPhonetic, pushPhonetic.
  destruct (lookupPhonetic [c]) as [p|] eqn:E.
  - apply lookupPhonetic_key in E as [[k [Hk Hr]] _].
    injection Hk as ->. apply isAsciiLetter_range in H. lia.
  - cbn [testAsciiLetter existsb]. now rewrite H.
Qed.
End PhoneticFacts.

(** X23.  [toPhonetic] works character by character: the phonetics of a
    concatenation are the phonetics of the parts put end to end, wherever
    the text is cut. *)
Theorem toPhonetic_app (rt : Runtime) (a b : jsstring) :
  BanglaPhonetics.toPhonetic rt (a ++ b)
  = BanglaPhonetics.toPhonetic rt a ++ BanglaPhonetics.toPhonetic rt b.
Proof.
  rewrite !(proj1 (PhoneticFacts.toPhonetic_units rt _)).
  apply flat_map_app.
Qed.

(** X24.  A query that is empty once its white space is removed matches
    every text phonetically. *)
Theorem phoneticMatch_blank_query
        (rt : Runtime) (englishQuery banglaText : jsstring) :
  BanglaPhonetics.removeSpaces (toLowerCase rt englishQuery) = [] ->
  BanglaPhonetics.phoneticMatch rt englishQuery banglaText = true.
Proof.
  intro H. unfold BanglaPhonetics.phoneticMatch. now rewrite H, includes_nil.
Qed.

Lemma phoneticMatch_blank_query_witness :
  BanglaPhonetics.phoneticMatch Ecma.ecma (js "  ")
    [2453; 2476; 2495; 2468; 2494]%N = true.
Proof.
  apply (@phoneticMatch_blank_query Ecma.ecma (js "  ")). reflexivity.
Defined.

(** X25.  The phonetic spellings are lower-case ASCII letters only, and a
    text of ASCII letters is its own phonetic text in lower case (on a
    runtime that lower-cases an ASCII letter as ASCII does). *)
Theorem toPhonetic_lower_ascii (rt : Runtime) (text : jsstring) :
  (forall c, BanglaPhonetics.isAsciiLetter c = true ->
             toLowerCase rt [c] = [Ecma.lowerUnit c]) ->
  Forall (fun c => Coverage.isLowerAscii c = true)
         (List.concat (BanglaPhonetics.toPhonetic rt text))
  /\ (Forall (fun c => BanglaPhonetics.isAsciiLetter c = true) text ->
      List.concat (BanglaPhonetics.toPhonetic rt text)
      = map Ecma.lowerUnit text).
Proof.
  intro Hrt. rewrite (proj1 (PhoneticFacts.toPhonetic_units rt text)).
  split.
  - induction text as [|c text IH]; [constructor|].
    cbn [flat_map]. rewrite concat_app. apply Forall_app. split; [|exact IH].
    unfold Coverage.unitPhonetic, BanglaPhonetics.pushPhonetic.
    destruct (BanglaPhonetics.lookupPhonetic [c]) as [p|] eqn:E.
    + apply PhoneticFacts.lookupPhonetic_key in E as [_ Hp].
      apply Forall_concat. exact Hp.
    + cbn [BanglaPhonetics.testAsciiLetter existsb]. rewrite orb_false_r.
      destruct (BanglaPhonetics.isAsciiLetter c) eqn:El; [|constructor].
      rewrite (Hrt c El). cbn [List.concat app]. constructor; [|constructor].
      apply PhoneticFacts.isAsciiLetter_cases in El.
      unfold Ecma.lowerUnit, Ecma.inRange, Coverage.isLowerAscii.
      destruct (N.leb_spec 65 c); destruct (N.leb_spec c 90); cbn [andb];
        apply andb_true_iff; split; apply N.leb_le; lia.
  - induction 1 as [|c text Hc _ IH]; [reflexivity|].
    cbn [flat_map map]. rewrite concat_app, IH.
    rewrite (PhoneticFacts.letter_unit rt c Hc), (Hrt c Hc). reflexivity.
Qed.

Lemma toPhonetic_lower_ascii_witness :
  Forall (fun c => Coverage.isLowerAscii c = true)
         (List.concat (BanglaPhonetics.toPhonetic Ecma.ecma
                         (js "Kobita")))
  /\ List.concat (BanglaPhonetics.toPhonetic Ecma.ecma (js "Kobita"))
     = js "kobita".
Proof.
  destruct (@toPhonetic_lower_ascii Ecma.ecma (js "Kobita")) as [H1 H2].
  - intros c _. reflexivity.
  - split; [exact H1|]. apply H2. repeat constructor.
Defined.

(** ** Retrieval, continued *)

Module MergeFacts.
Import DatabaseManager Reference.

Lemma rankResults_In rt fuel query items threshold ranked book :
  SearchRanking.rankResults rt fuel query items threshold = Some ranked ->
  In book ranked -> In book items.
Proof.
  intros H Hin. apply RankFacts.rankResults_unfold in H as [scored [Hs ->]].
  apply in_map_iff in Hin as [x [<- Hx]].
  apply (Permutation_in _ (RetrievalFacts.sortBy_perm _ _)) in Hx.
  apply filter_In in Hx as [Hx _].
  rewrite <- (RetrievalFacts.scoreAll_items _ _ _ _ Hs). now apply in_map.
Qed.

Lemma rankAll_In rt fuel catalog : forall passes lists,
  rankAll rt fuel catalog passes = Some lists ->
  forall book, In book (List.concat lists) -> In book catalog.
Proof.
  induction passes as [|pass passes IH]; intros lists H book Hin;
    cbn [rankAll] in H.
  - injection H as <-. destruct Hin.
  - destruct (SearchRanking.rankResults rt fuel pass catalog (3 # 10))
      as [ranked|] eqn:Er; [|discriminate].
    destruct (rankAll rt fuel catalog passes) as [others|]; [|discriminate].
    injection H as <-. cbn [List.concat] in Hin.
    apply in_app_or in Hin as [Hin | Hin].
    + exact (rankResults_In _ _ _ _ _ _ Er Hin).
    + now apply (IH others).
Qed.

(** Merging only appends, and only records of the list merged in. *)
Lemma mergeById_extends : forall ranked merged,
  exists extra,
    mergeById merged ranked = merged ++ extra
    /\ forall book, In book extra -> In book ranked.
Proof.
  unfold mergeById. induction ranked as [|b ranked IH]; intro merged.
  - exists []. split; [now rewrite app_nil_r | intros ? []].
  - cbn [fold_left]. destruct (IH (addUnique merged b)) as [extra [E Hin]].
    unfold addUnique in *.
    destruct (existsb (fun existing => jsstring_eqb (id existing) (id b))
                      merged).
    + exists extra. split; [exact E|]. intros x Hx. right. now apply Hin.
    + exists (b :: extra). rewrite E, <- app_assoc. split; [reflexivity|].
      intros x [<- | Hx]; [now left | right; now apply Hin].
Qed.

Lemma mergeAll_extends : forall others ranked,
  exists extra,
    fold_left mergeById others ranked = ranked ++ extra
    /\ forall book, In book extra -> In book (List.concat others).
Proof.
  induction others as [|l others IH]; intro ranked.
  - exists []. split; [now rewrite app_nil_r | intros ? []].
  - cbn [fold_left List.concat].
    destruct (mergeById_extends l ranked) as [e1 [E1 H1]].
    destruct (IH (mergeById ranked l)) as [e2 [E2 H2]].
    exists (e1 ++ e2). rewrite E2, E1, <- app_assoc. split; [reflexivity|].
    intros x Hx. apply in_or_app.
    apply in_app_or in Hx as [Hx | Hx]; [left; now apply H1 | right; now apply H2].
Qed.

(** What a fuzzy escalation that returns is made of. *)
Lemma fuzzy_results rt db fuel query w results w' :
  List.length (selectLike db (toLowerCase rt query)) < 3 ->
  searchBooks rt db fuel query w = Some (results, w') ->
  exists ranked others,
    SearchRanking.rankResults rt fuel query (selectAll db) (3 # 10)%Q
    = Some ranked
    /\ rankAll rt fuel (selectAll db) (fuzzyPasses rt query)
       = Some (ranked :: others)
    /\ results = firstn 50 (fold_left mergeById others ranked).
Proof.
  intros Hlt H. rewrite (RetrievalFacts.searchBooks_fuzzy rt db fuel query w Hlt) in H.
  unfold fuzzyPath in H.
  destruct (rankAll rt fuel (selectAll db) (fuzzyPasses rt query))
    as [[|ranked others]|] eqn:Er; try discriminate.
  exists ranked, others.
  assert (Hres : results = firstn 50 (fold_left mergeById others ranked))
    by congruence.
  split; [|split; [reflexivity | exact Hres]].
  unfold fuzzyPasses in Er. cbn [rankAll] in Er.
  destruct (SearchRanking.rankResults rt fuel query (selectAll db) (3 # 10))
    as [r|]; [|discriminate].
  destruct (rankAll rt fuel (selectAll db) _); [|discriminate].
  congruence.
Qed.

End MergeFacts.

(** X26.  Every call of [searchBooks] that returns has recorded the query
    in the suggestion buffer, whichever tier served it, and has sent the
    store the indexed statement alone or followed by the fetch of the whole
    catalog. *)
Theorem searchBooks_records_query
        (rt : Runtime) (db : Database) (fuel : nat) (query : jsstring)
        (w w' : World) (results : list Book) :
  DatabaseManager.searchBooks rt db fuel query w = Some (results, w') ->
  suggestions w' = SuggestionEngine.addQuery rt query (suggestions w)
  /\ (calls w' = calls w ++ [SelectLike (toLowerCase rt query)]
      \/ calls w'
         = (calls w ++ [SelectLike (toLowerCase rt query)]) ++ [SelectAll]).
Proof.
  intro H.
  destruct (Nat.leb_spec 3 (List.length (selectLike db (toLowerCase rt query))))
    as [Hge | Hlt].
  - rewrite (RetrievalFacts.searchBooks_indexed rt db fuel query w Hge) in H.
    injection H as _ <-. cbn [suggestions calls]. auto.
  - rewrite (RetrievalFacts.searchBooks_fuzzy rt db fuel query w Hlt) in H.
    destruct (Reference.fuzzyPath rt fuel query (selectAll db));
      [|discriminate].
    injection H as _ <-. cbn [suggestions calls]. auto.
Qed.

Lemma searchBooks_records_query_witness :
  [js "hobit"]
  = SuggestionEngine.addQuery Ecma.ecma (js "Hobit")
      (suggestions Reference.emptyWorld)
  /\ ([SelectLike (js "hobit"); SelectAll]
      = calls Reference.emptyWorld
        ++ [SelectLike (toLowerCase Ecma.ecma (js "Hobit"))]
      \/ [SelectLike (js "hobit"); SelectAll]
         = (calls Reference.emptyWorld
            ++ [SelectLike (toLowerCase Ecma.ecma (js "Hobit"))])
           ++ [SelectAll]).
Proof.
  apply (@searchBooks_records_query Ecma.ecma (Reference.stubDb 2) 2
           (js "Hobit") Reference.emptyWorld
           {| suggestions := [js "hobit"];
              calls := [SelectLike (js "hobit"); SelectAll] |}
           [Reference.theHobbit; Reference.hobbitSongs]).
  vm_compute. reflexivity.
Defined.

(** X27.  The fuzzy escalation invents no record: whatever it returns is a
    record of the catalog. *)
Theorem searchBooks_fuzzy_from_catalog
        (rt : Runtime) (db : Database) (fuel : nat) (query : jsstring)
        (w w' : World) (results : list Book) :
  List.length (selectLike db (toLowerCase rt query)) < 3 ->
  DatabaseManager.searchBooks rt db fuel query w = Some (results, w') ->
  forall book, In book results -> In book (selectAll db).
Proof.
  intros Hlt H book Hin.
  destruct (MergeFacts.fuzzy_results _ _ _ _ _ Hlt H)
    as [ranked [others [Hr [Hall ->]]]].
  apply BufferFacts.In_firstn in Hin.
  destruct (MergeFacts.mergeAll_extends others ranked) as [extra [E Hx]].
  rewrite E in Hin.
  apply (MergeFacts.rankAll_In _ _ _ _ Hall). cbn [List.concat].
  apply in_or_app. apply in_app_or in Hin as [Hin | Hin]; auto.
Qed.

Lemma searchBooks_fuzzy_from_catalog_witness :
  List.length (selectLike (Reference.stubDb 2)
                          (toLowerCase Ecma.ecma (js "Hobit"))) < 3
  /\ forall book, In book [Reference.theHobbit; Reference.hobbitSongs] ->
                  In book (selectAll (Reference.stubDb 2)).
Proof.
  assert (Hlt : List.length (selectLike (Reference.stubDb 2)
                               (toLowerCase Ecma.ecma (js "Hobit"))) < 3)
    by (vm_compute; lia).
  split; [exact Hlt|].
  apply (@searchBooks_fuzzy_from_catalog Ecma.ecma (Reference.stubDb 2) 2
           (js "Hobit") Reference.emptyWorld
           {| suggestions := [js "hobit"];
              calls := [SelectLike (js "hobit"); SelectAll] |}).
  - exact Hlt.
  - vm_compute. reflexivity.
Defined.

(** X28.  In the fuzzy escalation the records found for the query itself
    come first: the result is the first 50 of the ranking of the query
    followed by records that only a variation found. *)
Theorem searchBooks_direct_first
        (rt : Runtime) (db : Database) (fuel : nat) (query : jsstring)
        (w w' : World) (results : list Book) :
  List.length (selectLike db (toLowerCase rt query)) < 3 ->
  DatabaseManager.searchBooks rt db fuel query w = Some (results, w') ->
  exists ranked extra,
    SearchRanking.rankResults rt fuel query (selectAll db) (3 # 10)%Q
    = Some ranked
    /\ results = firstn 50 (ranked ++ extra)
    /\ forall book, In book extra -> ~ In (id book) (map id ranked).
Proof.
  intros Hlt H.
  destruct (MergeFacts.fuzzy_results _ _ _ _ _ Hlt H)
    as [ranked [others [Hr [Hall ->]]]].
  exists ranked.
  rewrite RetrievalFacts.mergeById_concat.
  revert Hr. generalize (List.concat others). clear. intros l Hr.
  assert (Hgen : forall (l merged : list Book),
             exists extra,
               Reference.mergeById merged l = merged ++ extra
               /\ forall book, In book extra -> ~ In (id book) (map id merged)).
  { unfold Reference.mergeById. clear.
    induction l as [|b l IH]; intro merged.
    - exists []. split; [now rewrite app_nil_r | intros ? []].
    - cbn [fold_left].
      destruct (in_dec jsstring_eq_dec (id b) (map id merged)) as [Hin|Hn].
      + rewrite (RetrievalFacts.addUnique_known _ _ Hin). apply IH.
      + rewrite (RetrievalFacts.addUnique_new _ _ Hn).
        destruct (IH (merged ++ [b])) as [extra [E Hx]].
        exists (b :: extra). rewrite E, <- app_assoc.
        split; [reflexivity|].
        intros x [<- | Hin]; [exact Hn|].
        intro Hm. apply (Hx x Hin). rewrite map_app. apply in_or_app.
        now left. }
  destruct (Hgen l ranked) as [extra [E Hx]].
  exists extra. rewrite E. auto.
Qed.

Lemma searchBooks_direct_first_witness :
  exists ranked extra,
    SearchRanking.rankResults Ecma.ecma 2 (js "Hobit")
      (selectAll (Reference.stubDb 2)) (3 # 10)%Q = Some ranked
    /\ [Reference.theHobbit; Reference.hobbitSongs]
       = firstn 50 (ranked ++ extra)
    /\ forall book, In book extra -> ~ In (id book) (map id ranked).
Proof.
  apply (@searchBooks_direct_first Ecma.ecma (Reference.stubDb 2) 2
           (js "Hobit") Reference.emptyWorld
           {| suggestions := [js "hobit"];
              calls := [SelectLike (js "hobit"); SelectAll] |}).
  - vm_compute. lia.
  - vm_compute. reflexivity.
Defined.

(** ** The caller *)



(** ** Where a dictionary entry applies *)

Module OccurrenceFacts.
Import Transliteration Reference.


















End OccurrenceFacts.



